(** * Bounded admission and completion pipeline: [AsyncRequestManager]

    A shallow embedding of [src/async_requests.py] (with the constants it
    takes from [src/config.py]) and the properties of its admission
    controller ([submit_request]), verification worker ([_make_request])
    and completion reconciler ([process_completed_requests]).

    Conventions of the embedding.
    - A method of the class is a computation in the monad [M]: it reads
      and writes the manager object, may raise a Python exception, and
      leaves a trace of the primitive operations it performed, in order.
    - What the program cannot decide itself is an argument: the hex digits
      of the fresh uuid, and, for a reconciler pass, the state of the
      worker pool (which verification calls have finished, and what
      [requests.post] did for each).
    - A callback is given by what a call of it does, return or raise; a
      callback started on a thread of its own runs there, and the trace
      records what it does without the starting thread seeing it.
    - Log lines and the [time.time()] stamps, which are only ever read to
      build log lines, are left out; logging, [executor.submit] and
      [Thread.start] are taken to succeed. *)

From Stdlib Require Import Ascii ZArith Lia.
From stdpp Require Import base strings list pretty.

#[local] Set Warnings "-register-all".
Local Open Scope Z_scope.
Local Open Scope list_scope.

(** ** Python values the pipeline handles *)

(** Exceptions: the class decides which [except] clause matches, the
    message is what [str(e)] gives.  All classes below derive from
    [Exception]. *)
Inductive exn_class : Set :=
| Timeout            (* requests.exceptions.Timeout *)
| ConnectionError    (* requests.exceptions.ConnectionError *)
| JSONDecodeError    (* raised by response.json() *)
| ValueError
| TypeError
| KeyError
| IndexError
| RuntimeError.

Record exn : Set := Exn { exn_cls : exn_class; str : string }.

Definition is_Timeout (e : exn) : bool :=
  match exn_cls e with Timeout => true | _ => false end.

(** A Python call that terminates: it returns a value or raises. *)
Inductive Exc (A : Type) : Type :=
| Returns (a : A)
| Raises (e : exn).
Arguments Returns {A} a.
Arguments Raises {A} e.

(** What [response.json()] can return; [JNone] is Python's [None]. *)
Inductive Json : Set :=
| JNone
| JBool (b : bool)
| JInt (n : Z)
| JFloat (mantissa exponent : Z)
| JStr (s : string)
| JList (l : list Json)
| JDict (d : list (string * Json)).

Definition bytes : Set := list Byte.byte.

(** The object handed to [submit_request] as [callback]: [None], or a
    callable, given by what a call [callback(result, error)] does. *)
Inductive Callback : Type :=
| PyNone
| PyCallable (f : Json → option string → Exc unit).

(** [if callback:] *)
Definition truthy (callback : Callback) : bool :=
  match callback with PyNone => false | PyCallable _ => true end.

(** The response object of [requests.post]. *)
Record Response : Set := { status_code : Z; json : Exc Json }.

(** ** config.py *)

Definition MAX_CONCURRENT_REQUESTS : Z := 3.
Definition PENDING_REQUESTS_LIMIT : Z := 5.
Definition RESPONSE_TIMEOUT : Z := 45.

(** ** The ledger *)

(** The future returned by [executor.submit(self._make_request,
    image_data, request_id)]: the task it stands for. *)
Record Future : Set := { task_image_data : bytes; task_request_id : string }.

(** A value of the dict [active_requests]. *)
Module Active.
Record info : Type := { future : Future; callback : Callback }.
End Active.

(** An element of the deque [pending_requests]. *)
Module Queued.
Record request : Type :=
  { id : string; image_data : bytes; callback : Callback }.
End Queued.

(** A Python dict keeps its keys in insertion order. *)
Abbreviation dict V := (list (string * V)).

Fixpoint dict_set {V} (k : string) (v : V) (d : dict V) : dict V :=
  match d with
  | [] => [(k, v)]
  | (k', v') :: d' =>
      if String.eqb k k' then (k', v) :: d' else (k', v') :: dict_set k v d'
  end.

Fixpoint dict_pop {V} (k : string) (d : dict V) : option (V * dict V) :=
  match d with
  | [] => None
  | (k', v') :: d' =>
      if String.eqb k k' then Some (v', d')
      else match dict_pop k d' with
           | Some (v, d'') => Some (v, (k', v') :: d'')
           | None => None
           end
  end.

Definition keys {V} (d : dict V) : list string := fst <$> d.

(** The representation invariant of a dict: no key twice. *)
Definition dict_wf {V} (d : dict V) : Prop := NoDup (keys d).

Record AsyncRequestManager : Type := {
  max_concurrent : Z;
  pending_requests : list Queued.request;
  active_requests : dict Active.info;
  request_counter : nat
}.

Definition len {A} (l : list A) : Z := Z.of_nat (length l).

(** ** Primitive operations left in the trace *)

Inductive event : Type :=
| LockAcquire
| LockRelease
| ExecutorSubmit (request_id : string)
| ActiveInsert (request_id : string)
| ActivePop (request_id : string)
| PendingAppend (request_id : string)
| PendingPopleft (request_id : string)
| CallbackCall (request_id : string) (result : Json) (error : option string)
    (does : Exc unit)
| ThreadStart (request_id : string) (result : Json) (error : option string)
    (does : Exc unit)
| HttpPost (request_id : string).

(** ** The monad of methods *)

Inductive outcome (A : Type) : Type :=
| Ok (a : A)
| Raise (e : exn)
| Hang.
Arguments Ok {A} a.
Arguments Raise {A} e.
Arguments Hang {A}.

Definition M (A : Type) : Type :=
  AsyncRequestManager → outcome A * AsyncRequestManager * list event.

Definition ret {A} (a : A) : M A := λ m, (Ok a, m, []).

Definition bind {A B} (c : M A) (k : A → M B) : M B := λ m,
  match c m with
  | (Ok a, m1, t1) => let '(r, m2, t2) := k a m1 in (r, m2, t1 ++ t2)
  | (Raise e, m1, t1) => (Raise e, m1, t1)
  | (Hang, m1, t1) => (Hang, m1, t1)
  end.

Declare Scope method_scope.
Delimit Scope method_scope with method.
Notation "x <- c ;; k" := (bind c (λ x, k))
  (at level 100, c at next level, right associativity) : method_scope.
Notation "c ;;; k" := (bind c (λ _, k))
  (at level 100, right associativity) : method_scope.
Local Open Scope method_scope.

Definition raise {A} (e : exn) : M A := λ m, (Raise e, m, []).
Definition hang {A} : M A := λ m, (Hang, m, []).
Definition get : M AsyncRequestManager := λ m, (Ok m, m, []).
Definition put (m' : AsyncRequestManager) : M unit := λ _, (Ok tt, m', []).
Definition emit (ev : event) : M unit := λ m, (Ok tt, m, [ev]).

Definition call {A} (r : Exc A) : M A :=
  match r with Returns a => ret a | Raises e => raise e end.

(** [try: body  except Exception as e: handler e] *)
Definition try_except {A} (body : M A) (handler : exn → M A) : M A := λ m,
  match body m with
  | (Raise e, m1, t1) => let '(r, m2, t2) := handler e m1 in (r, m2, t1 ++ t2)
  | r => r
  end.

(** [with self.lock: body]: the lock is released however [body] ends. *)
Definition with_lock {A} (body : M A) : M A := λ m,
  match body m with
  | (Hang, m1, t1) => (Hang, m1, LockAcquire :: t1)
  | (r, m1, t1) => (r, m1, LockAcquire :: t1 ++ [LockRelease])
  end.

Fixpoint for_each {A} (l : list A) (body : A → M unit) : M unit :=
  match l with
  | [] => ret tt
  | a :: l' => body a ;;; for_each l' body
  end.

(** ** Field updates and the primitive operations *)

Definition with_request_counter (n : nat) (m : AsyncRequestManager)
  : AsyncRequestManager :=
  {| max_concurrent := max_concurrent m;
     pending_requests := pending_requests m;
     active_requests := active_requests m;
     request_counter := n |}.

Definition with_active_requests (d : dict Active.info)
    (m : AsyncRequestManager) : AsyncRequestManager :=
  {| max_concurrent := max_concurrent m;
     pending_requests := pending_requests m;
     active_requests := d;
     request_counter := request_counter m |}.

Definition with_pending_requests (q : list Queued.request)
    (m : AsyncRequestManager) : AsyncRequestManager :=
  {| max_concurrent := max_concurrent m;
     pending_requests := q;
     active_requests := active_requests m;
     request_counter := request_counter m |}.

Definition set_request_counter (n : nat) : M unit :=
  m <- get ;; put (with_request_counter n m).

Definition set_active_requests (d : dict Active.info) : M unit :=
  m <- get ;; put (with_active_requests d m).

Definition set_pending_requests (q : list Queued.request) : M unit :=
  m <- get ;; put (with_pending_requests q m).

(** [self.executor.submit(self._make_request, image_data, request_id)] *)
Definition executor_submit (image_data : bytes) (request_id : string)
  : M Future :=
  emit (ExecutorSubmit request_id) ;;;
  ret {| task_image_data := image_data; task_request_id := request_id |}.

(** [self.active_requests[request_id] = request_info] *)
Definition active_setitem (request_id : string) (request_info : Active.info)
  : M unit :=
  m <- get ;;
  emit (ActiveInsert request_id) ;;;
  set_active_requests (dict_set request_id request_info (active_requests m)).

(** [self.active_requests.pop(request_id)] *)
Definition active_pop (request_id : string) : M Active.info :=
  m <- get ;;
  match dict_pop request_id (active_requests m) with
  | Some (request_info, d) =>
      emit (ActivePop request_id) ;;;
      set_active_requests d ;;;
      ret request_info
  | None => raise (Exn KeyError request_id)
  end.

(** [self.pending_requests.append(queued_request)] *)
Definition pending_append (queued_request : Queued.request) : M unit :=
  m <- get ;;
  emit (PendingAppend (Queued.id queued_request)) ;;;
  set_pending_requests (pending_requests m ++ [queued_request]).

(** [self.pending_requests.popleft()] *)
Definition pending_popleft : M Queued.request :=
  m <- get ;;
  match pending_requests m with
  | queued_request :: q =>
      emit (PendingPopleft (Queued.id queued_request)) ;;;
      set_pending_requests q ;;;
      ret queued_request
  | [] => raise (Exn IndexError "pop from an empty deque")
  end.

(** [callback(result, error)], called in place. *)
Definition call_callback (request_id : string) (callback : Callback)
    (result : Json) (error : option string) : M unit :=
  match callback with
  | PyNone => raise (Exn TypeError "'NoneType' object is not callable")
  | PyCallable f =>
      emit (CallbackCall request_id result error (f result error)) ;;;
      call (f result error)
  end.

(** [Thread(target=callback, args=(result, error)).start()]: the call runs
    on a thread of its own; what it does there is recorded, and does not
    come back to the thread that started it. *)
Definition thread_start (request_id : string) (callback : Callback)
    (result : Json) (error : option string) : M unit :=
  match callback with
  | PyNone => ret tt
  | PyCallable f => emit (ThreadStart request_id result error (f result error))
  end.

(** ** The methods of [AsyncRequestManager] *)

(** [ThreadPoolExecutor(max_workers=max_concurrent)] refuses a pool without
    workers, so no manager exists with [max_concurrent <= 0]. *)
Definition __init__ (max_concurrent : Z) : Exc AsyncRequestManager :=
  if max_concurrent <=? 0
  then Raises (Exn ValueError "max_workers must be greater than 0")
  else Returns {| max_concurrent := max_concurrent;
                  pending_requests := [];
                  active_requests := [];
                  request_counter := 0 |}.

(** [AsyncRequestManager()], with the default of the constructor. *)
Definition default_manager : Exc AsyncRequestManager :=
  __init__ MAX_CONCURRENT_REQUESTS.

(** [requests.post(VERIFY_ENDPOINT, files=files, timeout=RESPONSE_TIMEOUT)];
    [post] is what the call does: the response it returns or the exception
    it raises. *)
Definition requests_post (post : Exc Response) (request_id : string)
  : M Response :=
  emit (HttpPost request_id) ;;;
  call post.

Definition _make_request (post : Exc Response) (image_data : bytes)
    (request_id : string) : M Json :=
  try_except
    (response <- requests_post post request_id ;;
     if status_code response =? 200
     then call (json response)
     else ret JNone)
    (λ e, if is_Timeout e then ret JNone else ret JNone).

(** [f"req_{self.request_counter}_{uuid.uuid4().hex[:8]}"] *)
Definition make_request_id (request_counter : nat) (uuid4_hex : string)
  : string :=
  "req_" +:+ pretty request_counter +:+ "_" +:+ String.substring 0 8 uuid4_hex.

Definition overloaded : string := "Queue full - system overloaded".

Definition submit_request (uuid4_hex : string) (image_data : bytes)
    (callback : Callback) : M (option string) :=
  with_lock (
    m <- get ;;
    set_request_counter (S (request_counter m)) ;;;
    let request_id := make_request_id (S (request_counter m)) uuid4_hex in
    if len (active_requests m) <? max_concurrent m then
      future <- executor_submit image_data request_id ;;
      active_setitem request_id
        {| Active.future := future; Active.callback := callback |} ;;;
      ret (Some request_id)
    else if len (pending_requests m) <? PENDING_REQUESTS_LIMIT then
      pending_append {| Queued.id := request_id;
                        Queued.image_data := image_data;
                        Queued.callback := callback |} ;;;
      ret (Some request_id)
    else
      call_callback request_id callback JNone (Some overloaded) ;;;
      ret None).

(** The state of the worker pool at one pass of the reconciler: for the
    task of a request id, [None] while its worker has not finished, and
    what [requests.post] did once it has. *)
Definition World : Type := string → option (Exc Response).

(** [future.done()] *)
Definition future_done (w : World) (future : Future) : bool :=
  match w (task_request_id future) with Some _ => true | None => false end.

(** [future.result()]: what the task returned or raised on its worker; a
    call on a future that is not done waits for it. *)
Definition future_result (w : World) (future : Future) : M Json :=
  match w (task_request_id future) with
  | Some post => λ m,
      (fst (fst (_make_request post (task_image_data future)
                   (task_request_id future) m)), m, [])
  | None => hang
  end.

(** The first loop of [process_completed_requests]. *)
Definition completed_scan (w : World) (items : dict Active.info)
  : list string :=
  foldl (λ completed_requests item,
           if future_done w (Active.future (snd item))
           then completed_requests ++ [fst item]
           else completed_requests)
        [] items.

(** The [try] block of its second loop. *)
Definition harvest_try (w : World) (request_id : string)
    (request_info : Active.info) : M unit :=
  result <- future_result w (Active.future request_info) ;;
  if truthy (Active.callback request_info)
  then thread_start request_id (Active.callback request_info) result None
  else ret tt.

(** Its [except Exception as e] block. *)
Definition harvest_except (request_id : string) (request_info : Active.info)
    (e : exn) : M unit :=
  if truthy (Active.callback request_info)
  then thread_start request_id (Active.callback request_info)
         JNone (Some (str e))
  else ret tt.

(** The body of its second loop. *)
Definition harvest (w : World) (request_id : string) : M unit :=
  request_info <- active_pop request_id ;;
  try_except (harvest_try w request_id request_info)
             (harvest_except request_id request_info).

(** Its [while] loop; every turn takes one request off the queue, so
    [fuel] turns are enough when [fuel] is the length of the queue. *)
Fixpoint promote (fuel : nat) : M unit :=
  m <- get ;;
  if (len (active_requests m) <? max_concurrent m)
     && (0 <? len (pending_requests m))
  then
    match fuel with
    | O => hang
    | S fuel' =>
        queued_request <- pending_popleft ;;
        let request_id := Queued.id queued_request in
        future <- executor_submit (Queued.image_data queued_request)
                    request_id ;;
        active_setitem request_id
          {| Active.future := future;
             Active.callback := Queued.callback queued_request |} ;;;
        promote fuel'
    end
  else ret tt.

Definition process_completed_requests (w : World) : M unit :=
  with_lock (
    m <- get ;;
    let completed_requests := completed_scan w (active_requests m) in
    for_each completed_requests (harvest w) ;;;
    m' <- get ;;
    promote (length (pending_requests m'))).

(** [get_status] *)
Definition get_status : M (Z * Z * Z) :=
  with_lock (
    m <- get ;;
    ret (len (active_requests m), len (pending_requests m),
         max_concurrent m)).

(** ** Executions *)

(** The calls a client makes on the manager, each with what the
    environment contributes to it. *)
Inductive op : Type :=
| Submit (uuid4_hex : string) (image_data : bytes) (callback : Callback)
| Process (w : World).

Definition step (o : op) (m : AsyncRequestManager)
  : AsyncRequestManager * list event :=
  match o with
  | Submit uuid4_hex image_data callback =>
      let '(_, m', t) := submit_request uuid4_hex image_data callback m in
      (m', t)
  | Process w =>
      let '(_, m', t) := process_completed_requests w m in (m', t)
  end.

(** The manager and the whole trace after a sequence of calls; a call
    that raised is survived by its caller and the next one proceeds. *)
Fixpoint run (ops : list op) (m : AsyncRequestManager) (t : list event)
  : AsyncRequestManager * list event :=
  match ops with
  | [] => (m, t)
  | o :: ops' => let '(m', t') := step o m in run ops' m' (t ++ t')
  end.

(** ** Reading a trace *)

Definition appended (t : list event) : list string :=
  omap (λ ev, match ev with PendingAppend i => Some i | _ => None end) t.

Definition promoted (t : list event) : list string :=
  omap (λ ev, match ev with PendingPopleft i => Some i | _ => None end) t.

Definition popped (t : list event) : list string :=
  omap (λ ev, match ev with ActivePop i => Some i | _ => None end) t.

(** The requests whose callback has been fired, in place or on a thread. *)
Definition fired (t : list event) : list string :=
  omap (λ ev, match ev with
              | CallbackCall i _ _ _ | ThreadStart i _ _ _ => Some i
              | _ => None
              end) t.

(** The arguments and the behaviour of every callback dispatched to a
    thread for one request. *)
Definition dispatches (request_id : string) (t : list event)
  : list (Json * option string * Exc unit) :=
  omap (λ ev, match ev with
              | ThreadStart i result error does =>
                  if String.eqb i request_id
                  then Some (result, error, does) else None
              | _ => None
              end) t.

(** ** The reachable managers *)

(** A manager is reachable when a client can hold it: it came out of the
    constructor and went through some calls. *)
Definition reachable (m : AsyncRequestManager) (t : list event) : Prop :=
  ∃ max_concurrent m0 ops,
    __init__ max_concurrent = Returns m0 ∧ run ops m0 [] = (m, t).

Definition active_ids (m : AsyncRequestManager) : list string :=
  keys (active_requests m).

Definition pending_ids (m : AsyncRequestManager) : list string :=
  Queued.id <$> pending_requests m.

(** ** What the verification worker returns *)

(** The value of [_make_request], read off what [requests.post] did. *)
Definition verification_result (post : Exc Response) : Json :=
  match post with
  | Returns response =>
      if status_code response =? 200
      then match json response with Returns body => body | Raises _ => JNone end
      else JNone
  | Raises _ => JNone
  end.

(** ** Request ids *)

Fixpoint no_underscore (s : string) : bool :=
  match s with
  | EmptyString => true
  | String a s' => negb (Ascii.eqb a "_"%char) && no_underscore s'
  end.

(** ** The passes of the reconciler, spelled out *)

(** What the harvest loop leaves in the trace for one finished entry of
    [active_requests]. *)
Definition harvest_events (w : World) (item : string * Active.info)
  : list event :=
  ActivePop (fst item) ::
  match w (task_request_id (Active.future (snd item))),
        Active.callback (snd item) with
  | Some post, PyCallable f =>
      [ThreadStart (fst item) (verification_result post) None
         (f (verification_result post) None)]
  | _, _ => []
  end.

Definition is_done (w : World) (item : string * Active.info) : bool :=
  future_done w (Active.future (snd item)).

(** What one turn of the promotion loop leaves in the trace. *)
Definition promote_events (queued_request : Queued.request) : list event :=
  [PendingPopleft (Queued.id queued_request);
   ExecutorSubmit (Queued.id queued_request);
   ActiveInsert (Queued.id queued_request)].

(** The entry of [active_requests] a promoted request gets. *)
Definition start_queued (queued_request : Queued.request) : Active.info :=
  {| Active.future :=
       {| task_image_data := Queued.image_data queued_request;
          task_request_id := Queued.id queued_request |};
     Active.callback := Queued.callback queued_request |}.

Definition start_all (taken : list Queued.request) (d : dict Active.info)
  : dict Active.info :=
  foldl (λ d q, dict_set (Queued.id q) (start_queued q) d) d taken.

(** ** The ways a call can go *)

(** The events of the rejection branch: the callback is called in place
    if it can be called at all. *)
Definition reject_events (request_id : string) (callback : Callback)
  : list event :=
  match callback with
  | PyNone => []
  | PyCallable f =>
      [CallbackCall request_id JNone (Some overloaded)
         (f JNone (Some overloaded))]
  end.

Definition finished (w : World) (m : AsyncRequestManager)
  : dict Active.info :=
  filter (λ it, is_done w it) (active_requests m).

Definition running (w : World) (m : AsyncRequestManager)
  : dict Active.info :=
  filter (λ it, ¬ is_done w it) (active_requests m).

Inductive transition (m : AsyncRequestManager)
  : op → AsyncRequestManager → list event → Prop :=
| started uuid4_hex image_data callback :
    len (active_requests m) < max_concurrent m →
    let request_id := make_request_id (S (request_counter m)) uuid4_hex in
    transition m (Submit uuid4_hex image_data callback)
      (with_active_requests
         (dict_set request_id
            {| Active.future := {| task_image_data := image_data;
                                   task_request_id := request_id |};
               Active.callback := callback |}
            (active_requests m))
         (with_request_counter (S (request_counter m)) m))
      [LockAcquire; ExecutorSubmit request_id; ActiveInsert request_id;
       LockRelease]
| queued uuid4_hex image_data callback :
    max_concurrent m ≤ len (active_requests m) →
    len (pending_requests m) < PENDING_REQUESTS_LIMIT →
    let request_id := make_request_id (S (request_counter m)) uuid4_hex in
    transition m (Submit uuid4_hex image_data callback)
      (with_pending_requests
         (pending_requests m ++
            [{| Queued.id := request_id; Queued.image_data := image_data;
                Queued.callback := callback |}])
         (with_request_counter (S (request_counter m)) m))
      [LockAcquire; PendingAppend request_id; LockRelease]
| rejected uuid4_hex image_data callback :
    max_concurrent m ≤ len (active_requests m) →
    PENDING_REQUESTS_LIMIT ≤ len (pending_requests m) →
    let request_id := make_request_id (S (request_counter m)) uuid4_hex in
    transition m (Submit uuid4_hex image_data callback)
      (with_request_counter (S (request_counter m)) m)
      (LockAcquire :: reject_events request_id callback ++ [LockRelease])
| reconciled w taken rest :
    pending_requests m = taken ++ rest →
    (len (start_all taken (running w m)) < max_concurrent m → rest = []) →
    (len (running w m) ≤ max_concurrent m →
     len (start_all taken (running w m)) ≤ max_concurrent m) →
    transition m (Process w)
      (with_pending_requests rest
         (with_active_requests (start_all taken (running w m)) m))
      (LockAcquire ::
         (flat_map (harvest_events w) (finished w m)
            ++ flat_map promote_events taken) ++ [LockRelease]).

(** Every id in the ledger or already answered was built from a counter
    value that has been used. *)
Definition issued (request_counter : nat) (request_id : string) : Prop :=
  ∃ c uuid4_hex,
    request_id = make_request_id c uuid4_hex ∧ (c ≤ request_counter)%nat.

Definition known_ids (m : AsyncRequestManager) (t : list event)
  : list string :=
  active_ids m ++ pending_ids m ++ fired t.

(** What holds of the queue along every execution: the ids appended so
    far are those taken off so far followed by those still waiting, and no
    id was appended twice. *)
Definition fifo_inv (m : AsyncRequestManager) (t : list event) : Prop :=
  appended t = promoted t ++ pending_ids m
  ∧ NoDup (appended t)
  ∧ Forall (issued (request_counter m)) (appended t).

(** What holds of the ids along every execution: no id is known twice,
    and all were issued. *)
Definition ids_inv (m : AsyncRequestManager) (t : list event) : Prop :=
  NoDup (known_ids m t)
  ∧ Forall (issued (request_counter m)) (known_ids m t).

(** In a trace, every request taken off the queue is at once handed to
    the executor and entered in the active set. *)
Definition promotions_complete (t : list event) : Prop :=
  ∀ before after request_id,
    t = before ++ PendingPopleft request_id :: after →
    ∃ after',
      after = ExecutorSubmit request_id :: ActiveInsert request_id :: after'.

(** ** The lock along a trace *)

(** Whether the ledger lock is held after the events of [t], when it was
    free before them. *)
Definition held (t : list event) : bool :=
  foldl (λ h ev, match ev with
                 | LockAcquire => true
                 | LockRelease => false
                 | _ => h
                 end) false t.

(** Every hand-over of a verification call to the executor happens while
    the lock is free. *)
Definition dispatch_outside_lock (t : list event) : Prop :=
  ∀ before after request_id,
    t = before ++ ExecutorSubmit request_id :: after → held before = false.

(** The verification call did not produce a body: [requests.post] raised
    (a timeout, a transport error) or the status is not 200. *)
Definition call_failed (post : Exc Response) : Prop :=
  match post with
  | Raises _ => True
  | Returns response => status_code response ≠ 200
  end.

(** ** Sample clients, for the examples *)

Definition cb_returns : Callback := PyCallable (λ _ _, Returns tt).

Definition cb_raises : Callback :=
  PyCallable (λ _ _, Raises (Exn RuntimeError "callback failed")).

Definition fresh (max_concurrent : Z) : AsyncRequestManager :=
  {| max_concurrent := max_concurrent;
     pending_requests := [];
     active_requests := [];
     request_counter := 0 |}.

(** The worker of request [request_id] has finished and [requests.post]
    did [post]; no other worker has finished. *)
Definition only_done (request_id : string) (post : Exc Response) : World :=
  λ i, if String.eqb i request_id then Some post else None.

Definition timed_out : Exc Response :=
  Raises (Exn Timeout "HTTPConnectionPool: Read timed out.").

Definition verified : Exc Response :=
  Returns {| status_code := 200;
             json := Returns (JDict [("openDoor", JBool true)]) |}.

(** One slot, and seven submissions: one request starts, five wait, the
    seventh is turned away. *)
Definition seven_submissions (last : Callback) : list op :=
  [Submit "0a0a0a0a" [] cb_raises;
   Submit "1b1b1b1b" [] cb_returns;
   Submit "2c2c2c2c" [] PyNone;
   Submit "3d3d3d3d" [] cb_returns;
   Submit "4e4e4e4e" [] cb_returns;
   Submit "5f5f5f5f" [] cb_returns;
   Submit "6a6a6a6a" [] last].

(** The manager with its slot taken and its queue full. *)
Definition saturated : AsyncRequestManager :=
  (run (firstn 6 (seven_submissions PyNone)) (fresh 1) []).1.

(** The trace of the six calls that led there. *)
Definition saturated_trace : list event :=
  (run (firstn 6 (seven_submissions PyNone)) (fresh 1) []).2.

(** After the seven, two passes: the running request finishes and the
    first of the queue takes its slot, then that one finishes and the
    second takes it. *)
Definition two_passes : list op :=
  seven_submissions cb_returns
  ++ [Process (only_done "req_1_0a0a0a0a" timed_out);
      Process (only_done "req_2_1b1b1b1b" verified)].

(** ** More readings of a trace *)

(** The ids handed to the executor, in order. *)
Definition submitted (t : list event) : list string :=
  omap (λ ev, match ev with ExecutorSubmit i => Some i | _ => None end) t.

(** The ids entered in [active_requests], in order. *)
Definition inserted (t : list event) : list string :=
  omap (λ ev, match ev with ActiveInsert i => Some i | _ => None end) t.

(** The ids that were in the ledger at some time and have left it. *)
Definition ever_ids (m : AsyncRequestManager) (t : list event)
  : list string :=
  active_ids m ++ pending_ids m ++ popped t.

(** What holds of the ledger and its trace along every execution: an id
    entered in the active set is still there or was popped, the executor
    was handed exactly the ids entered, no id was in the ledger twice,
    and an entry of the active set holds the future of its own key. *)
Definition ledger_inv (m : AsyncRequestManager) (t : list event) : Prop :=
  inserted t ≡ₚ active_ids m ++ popped t
  ∧ submitted t = inserted t
  ∧ NoDup (ever_ids m t)
  ∧ Forall (issued (request_counter m)) (ever_ids m t)
  ∧ (∀ k info, (k, info) ∈ active_requests m →
               task_request_id (Active.future info) = k)
  ∧ (len (active_requests m) < max_concurrent m → pending_requests m = []).

Definition is_submit (o : op) : bool :=
  match o with Submit _ _ _ => true | Process _ => false end.

(** The number of [submit_request] calls among some calls. *)
Definition count_submits (ops : list op) : nat :=
  length (filter (λ o, is_submit o) ops).

(** * The client of the manager: [DoorControlSystem] (src/door_control.py) *)

(** ** Python's view of the values of a verdict *)

(** The truth value of a value in [if v:] and [not v]; [JFloat m e] stands
    for [m] times a power of ten, zero exactly when [m] is. *)
Definition py_truth (v : Json) : bool :=
  match v with
  | JNone => false
  | JBool b => b
  | JInt n => negb (n =? 0)
  | JFloat mantissa _ => negb (mantissa =? 0)
  | JStr s => negb (String.eqb s "")
  | JList l => match l with [] => false | _ :: _ => true end
  | JDict d => match d with [] => false | _ :: _ => true end
  end.

(** [v == s] for a string literal [s]. *)
Definition py_eq_str (v : Json) (s : string) : bool :=
  match v with JStr s' => String.eqb s' s | _ => false end.

(** [if error:] for the error a callback receives. *)
Definition error_truth (error : option string) : bool :=
  match error with
  | None => false
  | Some message => negb (String.eqb message "")
  end.

(** [d.get(key, default)] *)
Fixpoint dict_get {V} (key : string) (default : V) (d : dict V) : V :=
  match d with
  | [] => default
  | (k, v) :: d' => if String.eqb key k then v else dict_get key default d'
  end.

Inductive door_exn : Set :=
| AttributeError (message : string).

(** [result.get(key, default)]: of the values [response.json()] returns,
    only a dict has a [get]. *)
Definition py_get (result : Json) (key : string) (default : Json)
  : door_exn + Json :=
  match result with
  | JDict d => inr (dict_get key default d)
  | _ => inl (AttributeError "object has no attribute 'get'")
  end.

(** ** What the callback sets off *)

Inductive action : Set :=
| ControlDoor (open_door : bool)          (* self.control_door(open_door) *)
| IndicateGranted (user_name : Json)      (* self.indicate_access_granted *)
| IndicateDenied (reason : Json).         (* self.indicate_access_denied *)

(** An action is called in place, or started on a thread of its own. *)
Inductive door_event : Set :=
| Called (a : action)
| Spawned (a : action).

(** The [try] block of [verification_callback]: the five [get]s, then the
    verdict. *)
Definition verification_try (result : Json) : door_exn + list door_event :=
  match py_get result "openDoor" (JBool false) with
  | inl e => inl e
  | inr open_door =>
  match py_get result "access" (JStr "denied") with
  | inl e => inl e
  | inr access_status =>
  match py_get result "user" (JStr "Unknown") with
  | inl e => inl e
  | inr user_name =>
  match py_get result "reason" (JStr "Unknown error") with
  | inl e => inl e
  | inr reason =>
  match py_get result "confidence" (JInt 0) with
  | inl e => inl e
  | inr confidence =>
      if py_truth open_door && py_eq_str access_status "granted"
      then inr [Spawned (ControlDoor true);
                Spawned (IndicateGranted user_name)]
      else inr [Spawned (IndicateDenied reason)]
  end end end end end.

Definition verification_callback (result : Json) (error : option string)
  : list door_event :=
  if error_truth error then
    [Called (IndicateDenied
               (JStr ("System error: " +:+ default "" error)))]
  else if negb (py_truth result) then
    [Called (IndicateDenied (JStr "Verification failed"))]
  else
    match verification_try result with
    | inr events => events
    | inl _ => [Spawned (IndicateDenied (JStr "System error"))]
    end.

(** ** The face detector (src/face_detector.py) *)

(** A face: [(x, y, w, h)]. *)
Definition face : Set := Z * Z * Z * Z.

Definition MIN_FACE_SIZE : Z * Z := (50, 50).
Definition MAX_FACE_SIZE : Z * Z := (400, 400).
Definition FACE_DETECTION_ENABLED : bool := true.

(** The test both loops over faces make on the width and height. *)
Definition admissible (f : face) : bool :=
  let '(x, y, w, h) := f in
  (MIN_FACE_SIZE.1 <=? w) && (MIN_FACE_SIZE.2 <=? h)
  && (w <=? MAX_FACE_SIZE.1) && (h <=? MAX_FACE_SIZE.2).

(** What the imaging library does with one image: whether [cv2.imdecode]
    gives an image, and the list [faces] the detector of the chosen
    method leaves, or [None] when something raised on the way. *)
Record Look : Set := { decodes : bool; found : option (list face) }.

(** [detect_faces]: the count and the list of the valid faces. *)
Definition detect_faces (look : Look) : Z * list face :=
  if negb (decodes look) then (0, [])
  else match found look with
       | None => (0, [])
       | Some faces =>
           let valid_faces := List.filter admissible faces in
           (len valid_faces, valid_faces)
       end.

Definition has_face (look : Look) : bool := 0 <? (detect_faces look).1.

(** ** Capture and submission ([capture_and_verify_async]) *)

Record Stats : Set := {
  total_captures : nat;
  faces_detected : nat;
  api_calls_made : nat;
  api_calls_saved : nat;
  frames_streamed : nat
}.

Record DoorControlSystem : Type := {
  face_detector : bool;
  stats : Stats;
  request_manager : AsyncRequestManager
}.

Definition with_stats (st : Stats) (s : DoorControlSystem)
  : DoorControlSystem :=
  {| face_detector := face_detector s; stats := st;
     request_manager := request_manager s |}.

Definition with_request_manager (m : AsyncRequestManager)
    (s : DoorControlSystem) : DoorControlSystem :=
  {| face_detector := face_detector s; stats := stats s;
     request_manager := m |}.

Definition bump_total_captures (st : Stats) : Stats :=
  {| total_captures := S (total_captures st);
     faces_detected := faces_detected st;
     api_calls_made := api_calls_made st;
     api_calls_saved := api_calls_saved st;
     frames_streamed := frames_streamed st |}.

Definition bump_faces_detected (st : Stats) : Stats :=
  {| total_captures := total_captures st;
     faces_detected := S (faces_detected st);
     api_calls_made := api_calls_made st;
     api_calls_saved := api_calls_saved st;
     frames_streamed := frames_streamed st |}.

Definition bump_api_calls_made (st : Stats) : Stats :=
  {| total_captures := total_captures st;
     faces_detected := faces_detected st;
     api_calls_made := S (api_calls_made st);
     api_calls_saved := api_calls_saved st;
     frames_streamed := frames_streamed st |}.

Definition bump_api_calls_saved (st : Stats) : Stats :=
  {| total_captures := total_captures st;
     faces_detected := faces_detected st;
     api_calls_made := api_calls_made st;
     api_calls_saved := S (api_calls_saved st);
     frames_streamed := frames_streamed st |}.

Definition bump_frames_streamed (st : Stats) : Stats :=
  {| total_captures := total_captures st;
     faces_detected := faces_detected st;
     api_calls_made := api_calls_made st;
     api_calls_saved := api_calls_saved st;
     frames_streamed := S (frames_streamed st) |}.

(** What the camera gives to one [capture_image]: nothing (cool-down, no
    camera, or a failure on the way, all of which return [None] before
    the statistics are touched), or the optimized image, with whether the
    live stream took the frame. *)
Inductive camera : Set :=
| NoImage
| Image (optimized_data : bytes) (streamed : bool).

Definition capture_image (shot : camera) (s : DoorControlSystem)
  : DoorControlSystem * option bytes :=
  match shot with
  | NoImage => (s, None)
  | Image optimized_data streamed =>
      let st := bump_total_captures (stats s) in
      let st := if streamed then bump_frames_streamed st else st in
      (with_stats st s, Some optimized_data)
  end.

(** [self.verification_callback], as the manager sees it: a callable that
    returns; what it sets off is [verification_callback]. *)
Definition door_callback : Callback := PyCallable (λ _ _, Returns tt).

(** [if request_id:] on what [submit_request] gave. *)
Definition id_truth (out : outcome (option string)) : bool :=
  match out with
  | Ok (Some request_id) => negb (String.eqb request_id "")
  | _ => false
  end.

(** The submission inside [capture_and_verify_async], with the count of
    the call when an id comes back; [note_status] tells whether
    [get_status] is read for the log line. *)
Definition submit_and_count (note_status : bool) (uuid4_hex : string)
    (image_data : bytes) (s : DoorControlSystem)
  : DoorControlSystem * list event :=
  let '(out, m, t) :=
    submit_request uuid4_hex image_data door_callback (request_manager s) in
  let s := with_request_manager m s in
  if id_truth out then
    let s := with_stats (bump_api_calls_made (stats s)) s in
    if note_status
    then (with_request_manager (get_status (request_manager s)).1.2 s, t)
    else (s, t)
  else (s, t).

(** [capture_and_verify_async]; the events are those of the submission. *)
Definition capture_and_verify_async (shot : camera) (look : Look)
    (uuid4_hex : string) (s : DoorControlSystem)
  : DoorControlSystem * list event :=
  let '(s, image_data) := capture_image shot s in
  match image_data with
  | None | Some [] => (s, [])
  | Some image_data =>
      if FACE_DETECTION_ENABLED && face_detector s then
        if has_face look then
          let s := with_stats (bump_faces_detected (stats s)) s in
          submit_and_count true uuid4_hex image_data s
        else (with_stats (bump_api_calls_saved (stats s)) s, [])
      else submit_and_count false uuid4_hex image_data s
  end.

(** One turn of [_request_processor]. *)
Definition request_processor_turn (w : World) (s : DoorControlSystem)
  : DoorControlSystem * list event :=
  let '(_, m, t) := process_completed_requests w (request_manager s) in
  (with_request_manager m s, t).

(** The system as its constructor leaves it. *)
Definition new_system : Exc DoorControlSystem :=
  match default_manager with
  | Returns m =>
      Returns {| face_detector := FACE_DETECTION_ENABLED;
                 stats := {| total_captures := 0; faces_detected := 0;
                             api_calls_made := 0; api_calls_saved := 0;
                             frames_streamed := 0 |};
                 request_manager := m |}
  | Raises e => Raises e
  end.

(** What happens to the system: a capture by the capture loop, or a turn
    of the request processor. *)
Inductive door_op : Type :=
| Capture (shot : camera) (look : Look) (uuid4_hex : string)
| Turn (w : World).

Definition door_step (o : door_op) (s : DoorControlSystem)
  : DoorControlSystem * list event :=
  match o with
  | Capture shot look uuid4_hex =>
      capture_and_verify_async shot look uuid4_hex s
  | Turn w => request_processor_turn w s
  end.

Fixpoint door_run (ops : list door_op) (s : DoorControlSystem)
    (t : list event) : DoorControlSystem * list event :=
  match ops with
  | [] => (s, t)
  | o :: ops' => let '(s', t') := door_step o s in door_run ops' s' (t ++ t')
  end.

(** What holds of the statistics along every execution. *)
Definition stats_inv (s : DoorControlSystem) (t : list event) : Prop :=
  reachable (request_manager s) t
  ∧ face_detector s = true
  ∧ api_calls_made (stats s)
    = (length (active_requests (request_manager s))
       + length (pending_requests (request_manager s))
       + length (popped t))%nat
  ∧ faces_detected (stats s) = request_counter (request_manager s)
  ∧ (api_calls_made (stats s) ≤ faces_detected (stats s))%nat
  ∧ (faces_detected (stats s) + api_calls_saved (stats s)
     ≤ total_captures (stats s))%nat
  ∧ (frames_streamed (stats s) ≤ total_captures (stats s))%nat.

(** ** The speech queue (src/text_to_speech.py) *)

(** [TextToSpeech.speak], on the messages waiting in [message_queue]
    (a [queue.Queue()] without bound, so that [put] always succeeds). *)
Definition speak (message : string) (message_queue : list string)
  : list string :=
  if String.eqb message "" then message_queue
  else
    let message_queue :=
      if 5 <? len message_queue then [] else message_queue in
    message_queue ++ [message].

(** What happens to the queue: a call of [speak], or the speech thread
    taking the message at the head ([message_queue.get]). *)
Inductive speech_op : Set :=
| Speak (message : string)
| Take.

Definition speech_step (o : speech_op) (message_queue : list string)
  : list string :=
  match o with
  | Speak message => speak message message_queue
  | Take => tail message_queue
  end.

Definition speech_run (ops : list speech_op) (message_queue : list string)
  : list string :=
  foldl (λ q o, speech_step o q) message_queue ops.

(** ** More sample clients *)

Definition granting : Exc Response :=
  Returns {| status_code := 200;
             json := Returns (JDict [("openDoor", JBool true);
                                     ("access", JStr "granted");
                                     ("user", JStr "Ada")]) |}.

Definition no_worker_done : World := λ _, None.

Definition one_face : Look :=
  {| decodes := true; found := Some [(10, 20, 120, 130); (0, 0, 10, 10)] |}.

Definition no_face : Look := {| decodes := true; found := Some [] |}.

Definition four_captures : list door_op :=
  [Capture (Image [Byte.x01] false) one_face "0a0a0a0a";
   Capture NoImage one_face "1b1b1b1b";
   Capture (Image [Byte.x02] true) no_face "2c2c2c2c";
   Capture (Image [Byte.x03] false) one_face "3d3d3d3d";
   Turn (only_done "req_1_0a0a0a0a" granting)].

(** * Proofs *)

(** An event of another kind is not in a trace that is written out. *)
Ltac absent_from_trace H :=
  repeat (apply elem_of_cons in H as [H|H]; [discriminate H|]);
  apply elem_of_nil in H; exact H.

(** The ways a trace that is written out splits at an event. *)
Ltac split_trace before H :=
  repeat (destruct before as [|? before];
          [try discriminate H; try reflexivity
          |injection H as <- H]);
  destruct before; discriminate H.

(** ** The verification worker *)

Lemma _make_request_eq post image_data request_id m :
  _make_request post image_data request_id m
  = (Ok (verification_result post), m, [HttpPost request_id]).
Proof.
  unfold _make_request, try_except, requests_post, bind, emit, call.
  destruct post as [response|e]; simpl.
  - destruct (status_code response =? 200); simpl; [|reflexivity].
    destruct (json response) as [body|e]; simpl; [reflexivity|].
    destruct (is_Timeout e); reflexivity.
  - destruct (is_Timeout e); reflexivity.
Qed.

Lemma future_result_done w future post m :
  w (task_request_id future) = Some post →
  future_result w future m = (Ok (verification_result post), m, []).
Proof.
  intros Hw. unfold future_result. rewrite Hw, _make_request_eq. reflexivity.
Qed.


(** ** Request ids: the counter makes them unique *)

Lemma append_String a s t : String a s +:+ t = String a (s +:+ t).
Proof. reflexivity. Qed.

Lemma append_Empty t : "" +:+ t = t.
Proof. reflexivity. Qed.

Ltac str_simpl := rewrite ?append_String, ?append_Empty in *; simpl in *.

Lemma no_underscore_digit (x : N) : Ascii.eqb (pretty_N_char x) "_"%char = false.
Proof.
  unfold pretty_N_char.
  destruct x as [|p]; [reflexivity|].
  do 4 (destruct p as [p|p|]; try reflexivity).
Qed.

Lemma no_underscore_app d1 d2 :
  no_underscore d1 = true → no_underscore d2 = true →
  no_underscore (d1 +:+ d2) = true.
Proof.
  intros H1 H2. induction d1 as [|a d1 IH]; str_simpl; [exact H2|].
  apply andb_true_iff in H1 as [-> H1]. simpl. apply IH, H1.
Qed.

Lemma append_assoc (s1 s2 s3 : string) :
  (s1 +:+ s2) +:+ s3 = s1 +:+ (s2 +:+ s3).
Proof.
  induction s1 as [|a s1 IH]; str_simpl; [reflexivity|]. f_equal. exact IH.
Qed.

Lemma pretty_N_go_digits (x : N) :
  ∀ s, ∃ d, pretty_N_go x s = d +:+ s ∧ no_underscore d = true.
Proof.
  induction x as [x IH] using (well_founded_induction N.lt_wf_0).
  intros s. destruct (N.eq_dec x 0%N) as [->|Hx].
  - exists "". split; reflexivity.
  - rewrite pretty_N_go_step by lia.
    destruct (IH (x `div` 10)%N) with
      (s := String (pretty_N_char (x `mod` 10)) s) as (d & Hd & Hnu).
    { apply N.div_lt; lia. }
    exists (d +:+ String (pretty_N_char (x `mod` 10)) "").
    split.
    + rewrite Hd, append_assoc. reflexivity.
    + apply no_underscore_app; [exact Hnu|].
      simpl. rewrite no_underscore_digit. reflexivity.
Qed.

Lemma pretty_nat_digits (n : nat) : no_underscore (pretty n) = true.
Proof.
  unfold pretty, pretty_nat, pretty, pretty_N.
  destruct (decide (N.of_nat n = 0%N)); [reflexivity|].
  destruct (pretty_N_go_digits (N.of_nat n) "") as (d & -> & Hd).
  apply no_underscore_app; [exact Hd|reflexivity].
Qed.

(** Two strings without underscore, each followed by an underscore and
    anything, are equal as soon as the whole strings are. *)
Lemma underscore_delimits (d1 d2 s1 s2 : string) :
  no_underscore d1 = true → no_underscore d2 = true →
  d1 +:+ String "_" s1 = d2 +:+ String "_" s2 → d1 = d2.
Proof.
  revert d2. induction d1 as [|a d1 IH]; intros [|b d2] H1 H2 Heq; str_simpl.
  - reflexivity.
  - injection Heq as <- _. apply andb_true_iff in H2 as [H2 _].
    rewrite Ascii.eqb_refl in H2. discriminate.
  - injection Heq as -> _. apply andb_true_iff in H1 as [H1 _].
    rewrite Ascii.eqb_refl in H1. discriminate.
  - injection Heq as -> Heq.
    apply andb_true_iff in H1 as [_ H1]. apply andb_true_iff in H2 as [_ H2].
    f_equal. exact (IH d2 H1 H2 Heq).
Qed.

Lemma make_request_id_inj c h c' h' :
  make_request_id c h = make_request_id c' h' → c = c'.
Proof.
  unfold make_request_id. intros Heq.
  change ("req_" +:+ ?x) with (String "r" (String "e" (String "q" (String "_" x)))) in Heq.
  injection Heq as Heq.
  apply underscore_delimits in Heq; auto using pretty_nat_digits.
  exact (pretty_nat_inj _ _ Heq).
Qed.

(** ** Dicts *)

Lemma dict_set_length {V} k (v : V) d :
  (length d ≤ length (dict_set k v d) ≤ S (length d))%nat.
Proof.
  induction d as [|[k' v'] d IH]; simpl; [lia|].
  destruct (String.eqb k k'); simpl; lia.
Qed.

Lemma dict_set_keys_fresh {V} k (v : V) d :
  k ∉ keys d → dict_set k v d = d ++ [(k, v)].
Proof.
  induction d as [|[k' v'] d IH]; simpl; intros Hk; [reflexivity|].
  apply not_elem_of_cons in Hk as [Hne Hk].
  destruct (String.eqb_spec k k') as [->|_]; [done|].
  rewrite IH by exact Hk. reflexivity.
Qed.

Lemma dict_set_keys {V} k (v : V) d :
  keys (dict_set k v d) = if bool_decide (k ∈ keys d) then keys d
                          else keys d ++ [k].
Proof.
  induction d as [|[k' v'] d IH]; simpl; [reflexivity|].
  destruct (String.eqb_spec k k') as [->|Hne]; simpl.
  - rewrite bool_decide_eq_true_2 by apply list_elem_of_here. reflexivity.
  - rewrite IH. destruct (bool_decide_reflect (k ∈ keys d)) as [Hin|Hin].
    + rewrite bool_decide_eq_true_2 by (apply list_elem_of_further, Hin).
      reflexivity.
    + rewrite bool_decide_eq_false_2; [reflexivity|].
      intros [?|?]%elem_of_cons; done.
Qed.

Lemma dict_set_wf {V} k (v : V) d : dict_wf d → dict_wf (dict_set k v d).
Proof.
  unfold dict_wf. rewrite dict_set_keys. case_bool_decide as Hin; [done|].
  intros Hd. apply NoDup_app. split_and!; [done| |apply NoDup_singleton].
  intros x Hx ->%list_elem_of_singleton. done.
Qed.

Lemma dict_pop_middle {V} k (v : V) pre d :
  k ∉ keys pre → dict_pop k (pre ++ (k, v) :: d) = Some (v, pre ++ d).
Proof.
  induction pre as [|[k' v'] pre IH]; simpl; intros Hk.
  - rewrite String.eqb_refl. reflexivity.
  - apply not_elem_of_cons in Hk as [Hne Hk].
    destruct (String.eqb_spec k k') as [->|_]; [done|].
    rewrite IH by exact Hk. reflexivity.
Qed.

(** ** [submit_request], case by case *)

Lemma submit_request_start uuid4_hex image_data callback m :
  len (active_requests m) < max_concurrent m →
  let request_id := make_request_id (S (request_counter m)) uuid4_hex in
  submit_request uuid4_hex image_data callback m
  = (Ok (Some request_id),
     with_active_requests
       (dict_set request_id
          {| Active.future := {| task_image_data := image_data;
                                 task_request_id := request_id |};
             Active.callback := callback |}
          (active_requests m))
       (with_request_counter (S (request_counter m)) m),
     [LockAcquire; ExecutorSubmit request_id; ActiveInsert request_id;
      LockRelease]).
Proof.
  intros Hlt%Z.ltb_lt. unfold submit_request, with_lock, bind; simpl.
  rewrite Hlt. reflexivity.
Qed.

Lemma submit_request_queue uuid4_hex image_data callback m :
  max_concurrent m ≤ len (active_requests m) →
  len (pending_requests m) < PENDING_REQUESTS_LIMIT →
  let request_id := make_request_id (S (request_counter m)) uuid4_hex in
  submit_request uuid4_hex image_data callback m
  = (Ok (Some request_id),
     with_pending_requests
       (pending_requests m ++
          [{| Queued.id := request_id; Queued.image_data := image_data;
              Queued.callback := callback |}])
       (with_request_counter (S (request_counter m)) m),
     [LockAcquire; PendingAppend request_id; LockRelease]).
Proof.
  intros Hge%Z.ltb_ge Hlt%Z.ltb_lt.
  unfold submit_request, with_lock, bind; simpl.
  rewrite Hge, Hlt. reflexivity.
Qed.

Lemma submit_request_reject uuid4_hex image_data callback m :
  max_concurrent m ≤ len (active_requests m) →
  PENDING_REQUESTS_LIMIT ≤ len (pending_requests m) →
  let request_id := make_request_id (S (request_counter m)) uuid4_hex in
  submit_request uuid4_hex image_data callback m
  = match callback with
    | PyNone =>
        (Raise (Exn TypeError "'NoneType' object is not callable"),
         with_request_counter (S (request_counter m)) m,
         [LockAcquire; LockRelease])
    | PyCallable f =>
        (match f JNone (Some overloaded) with
         | Returns _ => Ok None
         | Raises e => Raise e
         end,
         with_request_counter (S (request_counter m)) m,
         [LockAcquire;
          CallbackCall request_id JNone (Some overloaded)
            (f JNone (Some overloaded));
          LockRelease])
    end.
Proof.
  intros Hge%Z.ltb_ge Hfull%Z.ltb_ge.
  unfold submit_request, with_lock, bind; simpl.
  rewrite Hge, Hfull. destruct callback as [|f]; simpl; [reflexivity|].
  destruct (f JNone (Some overloaded)) as [[]|e]; reflexivity.
Qed.

(** ** The harvest loop *)

Lemma completed_scan_eq w items :
  completed_scan w items = (filter (λ it, is_done w it) items).*1.
Proof.
  unfold completed_scan.
  enough (∀ acc, foldl (λ completed_requests item,
                   if future_done w (Active.future (snd item))
                   then completed_requests ++ [fst item]
                   else completed_requests) acc items
                 = acc ++ (filter (λ it, is_done w it) items).*1) as H
    by exact (H []).
  induction items as [|it items IH]; intros acc.
  - simpl. rewrite app_nil_r. reflexivity.
  - rewrite filter_cons. cbn [foldl]. rewrite IH.
    destruct (future_done w (Active.future it.2)) eqn:Hdone.
    + rewrite decide_True by (unfold is_done; rewrite Hdone; exact I).
      rewrite <- app_assoc. reflexivity.
    + rewrite decide_False by (unfold is_done; rewrite Hdone; exact id).
      reflexivity.
Qed.

Lemma with_active_requests_id m :
  with_active_requests (active_requests m) m = m.
Proof. destruct m; reflexivity. Qed.

Lemma harvest_eq w k info pre d m :
  active_requests m = pre ++ (k, info) :: d →
  k ∉ keys pre →
  is_done w (k, info) →
  harvest w k m
  = (Ok tt, with_active_requests (pre ++ d) m, harvest_events w (k, info)).
Proof.
  intros Hact Hk Hdone.
  unfold is_done, future_done in Hdone. simpl in Hdone.
  unfold harvest_events. simpl.
  destruct (w (task_request_id (Active.future info))) as [post|] eqn:Hw;
    [clear Hdone|done].
  unfold harvest, active_pop, bind, get. cbn beta iota.
  rewrite Hact, dict_pop_middle by exact Hk.
  unfold emit, set_active_requests, bind, get, put, ret, try_except,
    harvest_try, bind.
  cbn beta iota. rewrite (future_result_done _ _ _ _ Hw).
  destruct (Active.callback info) as [|f]; reflexivity.
Qed.

Lemma harvest_loop w d :
  ∀ pre m,
    active_requests m = pre ++ d →
    dict_wf (pre ++ d) →
    for_each (filter (λ it, is_done w it) d).*1 (harvest w) m
    = (Ok tt,
       with_active_requests (pre ++ filter (λ it, ¬ is_done w it) d) m,
       flat_map (harvest_events w) (filter (λ it, is_done w it) d)).
Proof.
  induction d as [|[k info] d IH]; intros pre m Hact Hwf.
  - rewrite !filter_nil, <- Hact, with_active_requests_id. reflexivity.
  - rewrite !filter_cons.
    destruct (decide (is_done w (k, info))) as [Hdone|Hrun].
    + rewrite decide_False by tauto.
      assert (k ∉ keys pre) as Hk.
      { unfold dict_wf, keys in Hwf. rewrite fmap_app, fmap_cons in Hwf.
        apply NoDup_app in Hwf as (_ & Hdisj & _).
        intros Hin. apply (Hdisj k Hin), list_elem_of_here. }
      rewrite fmap_cons. cbn [for_each flat_map fst]. unfold bind at 1.
      rewrite (harvest_eq w k info pre d m Hact Hk Hdone).
      rewrite (IH pre (with_active_requests (pre ++ d) m)); cycle 1.
      { reflexivity. }
      { unfold dict_wf, keys in *. rewrite fmap_app, fmap_cons in *.
        apply NoDup_app in Hwf as (H1 & H2 & [_ H3]%NoDup_cons).
        apply NoDup_app. split_and!; [exact H1| |exact H3].
        intros x Hx Hx'. apply (H2 x Hx), list_elem_of_further, Hx'. }
      reflexivity.
    + rewrite decide_True by exact Hrun.
      assert (pre ++ (k, info) :: d = (pre ++ [(k, info)]) ++ d) as Heq
        by (rewrite <- app_assoc; reflexivity).
      rewrite (IH (pre ++ [(k, info)]) m); cycle 1.
      { rewrite Hact. exact Heq. }
      { rewrite <- Heq. exact Hwf. }
      rewrite <- app_assoc. reflexivity.
Qed.

(** ** The promotion loop *)

Lemma dict_set_len {V} k (v : V) d :
  len d ≤ len (dict_set k v d) ≤ len d + 1.
Proof. unfold len. pose proof (dict_set_length k v d). lia. Qed.

Lemma promote_stop fuel m :
  max_concurrent m ≤ len (active_requests m) ∨ pending_requests m = [] →
  promote fuel m = (Ok tt, m, []).
Proof.
  intros Hstop.
  assert ((len (active_requests m) <? max_concurrent m)
          && (0 <? len (pending_requests m)) = false) as Hcond.
  { destruct Hstop as [Hfull| ->].
    - apply andb_false_iff. left. apply Z.ltb_ge, Hfull.
    - apply andb_false_r. }
  destruct fuel; unfold promote, bind, get; cbn beta iota; rewrite Hcond;
    reflexivity.
Qed.

Lemma promote_turn fuel m x q :
  len (active_requests m) < max_concurrent m →
  pending_requests m = x :: q →
  promote (S fuel) m
  = let '(r, m', t) :=
      promote fuel
        (with_active_requests
           (dict_set (Queued.id x) (start_queued x) (active_requests m))
           (with_pending_requests q m)) in
    (r, m', promote_events x ++ t).
Proof.
  intros Hroom Hq.
  assert ((len (active_requests m) <? max_concurrent m)
          && (0 <? len (pending_requests m)) = true) as Hcond.
  { apply andb_true_iff. split; [apply Z.ltb_lt, Hroom|].
    rewrite Hq. reflexivity. }
  cbn [promote]. unfold bind at 1, get. cbn beta iota. rewrite Hcond.
  unfold pending_popleft, bind at 1 2, get. cbn beta iota. rewrite Hq.
  unfold bind, emit, ret, set_pending_requests, executor_submit,
    active_setitem, set_active_requests, bind, get, put, emit, ret.
  cbn beta iota. fold (promote fuel).
  match goal with |- context [promote fuel ?a] =>
    change a with (with_active_requests
           (dict_set (Queued.id x) (start_queued x) (active_requests m))
           (with_pending_requests q m)) end.
  destruct (promote fuel _) as [[r m'] t]. reflexivity.
Qed.

Lemma promote_spec fuel :
  ∀ m, (length (pending_requests m) ≤ fuel)%nat →
  ∃ taken rest,
    pending_requests m = taken ++ rest
    ∧ promote fuel m
      = (Ok tt,
         with_pending_requests rest
           (with_active_requests (start_all taken (active_requests m)) m),
         flat_map promote_events taken)
    ∧ (len (start_all taken (active_requests m)) < max_concurrent m →
       rest = [])
    ∧ (len (active_requests m) ≤ max_concurrent m →
       len (start_all taken (active_requests m)) ≤ max_concurrent m).
Proof.
  induction fuel as [|fuel IH]; intros m Hfuel.
  - exists [], (pending_requests m). split_and!; [reflexivity| |..].
    + rewrite promote_stop; [destruct m; reflexivity|].
      right. destruct (pending_requests m); [reflexivity|simpl in Hfuel; lia].
    + intros _. destruct (pending_requests m); [reflexivity|simpl in Hfuel; lia].
    + intros H; exact H.
  - destruct m as [mc q d c]. simpl in Hfuel.
    destruct (Z.lt_ge_cases (len d) mc) as [Hroom|Hfull];
      [destruct q as [|x q]|].
    + exists [], []. split_and!; [reflexivity| |done..].
      rewrite promote_stop by (right; reflexivity). reflexivity.
    + rewrite (promote_turn fuel (Build_AsyncRequestManager mc (x :: q) d c)
                 x q Hroom eq_refl).
      destruct (IH (with_active_requests
                      (dict_set (Queued.id x) (start_queued x) d)
                      (with_pending_requests q
                         (Build_AsyncRequestManager mc (x :: q) d c))))
        as (taken & rest & Hsplit & Hrun & Hexit & Hbound).
      { simpl in *. lia. }
      cbn [active_requests pending_requests] in *.
      rewrite Hrun. exists (x :: taken), rest. simpl in *.
      split_and!; [rewrite Hsplit; reflexivity|reflexivity|exact Hexit|].
      intros _. apply Hbound.
      pose proof (dict_set_len (Queued.id x) (start_queued x) d). lia.
    + exists [], q. split_and!; [reflexivity| |simpl; lia|done].
      rewrite promote_stop by (left; exact Hfull). reflexivity.
Qed.

(** ** A whole pass of the reconciler *)

Lemma process_spec w m :
  dict_wf (active_requests m) →
  let finished := filter (λ it, is_done w it) (active_requests m) in
  let running := filter (λ it, ¬ is_done w it) (active_requests m) in
  ∃ taken rest,
    pending_requests m = taken ++ rest
    ∧ process_completed_requests w m
      = (Ok tt,
         with_pending_requests rest
           (with_active_requests (start_all taken running) m),
         LockAcquire ::
           (flat_map (harvest_events w) finished
              ++ flat_map promote_events taken) ++ [LockRelease])
    ∧ (len (start_all taken running) < max_concurrent m → rest = [])
    ∧ (len running ≤ max_concurrent m →
       len (start_all taken running) ≤ max_concurrent m).
Proof.
  intros Hwf finished running.
  destruct (promote_spec (length (pending_requests m))
              (with_active_requests running m))
    as (taken & rest & Hsplit & Hrun & Hexit & Hbound); [reflexivity|].
  exists taken, rest. split_and!; [exact Hsplit| |exact Hexit|exact Hbound].
  unfold process_completed_requests, with_lock, bind at 1, get.
  cbn beta iota. rewrite completed_scan_eq. unfold bind at 1.
  rewrite (harvest_loop w (active_requests m) [] m eq_refl Hwf).
  unfold bind, get. cbn beta iota.
  change (pending_requests (with_active_requests _ m))
    with (pending_requests m).
  change ([] ++ filter (λ it, ¬ is_done w it) (active_requests m))
    with running.
  rewrite Hrun. reflexivity.
Qed.

Lemma filter_len {A} (P : A → Prop) `{∀ x, Decision (P x)} (l : list A) :
  len (filter P l) ≤ len l.
Proof. unfold len. pose proof (length_filter P l). lia. Qed.

(** ** Induction over executions *)

Lemma run_app ops1 ops2 m t :
  run (ops1 ++ ops2) m t
  = let '(m', t') := run ops1 m t in run ops2 m' t'.
Proof.
  revert m t. induction ops1 as [|o ops1 IH]; intros m t; simpl.
  - reflexivity.
  - destruct (step o m) as [m' t']. apply IH.
Qed.

Lemma run_invariant (P : AsyncRequestManager → list event → Prop) :
  (∀ o m t, P m t → P (step o m).1 (t ++ (step o m).2)) →
  ∀ ops m t, P m t → P (run ops m t).1 (run ops m t).2.
Proof.
  intros Hstep. induction ops as [|o ops IH]; intros m t HP; simpl.
  - exact HP.
  - specialize (Hstep o m t HP). destruct (step o m) as [m' t'].
    apply IH, Hstep.
Qed.

Lemma reachable_invariant (P : AsyncRequestManager → list event → Prop) :
  (∀ mc m0, __init__ mc = Returns m0 → P m0 []) →
  (∀ o m t, P m t → P (step o m).1 (t ++ (step o m).2)) →
  ∀ m t, reachable m t → P m t.
Proof.
  intros Hinit Hstep m t (mc & m0 & ops & Hm0 & Hrun).
  pose proof (run_invariant P Hstep ops m0 [] (Hinit mc m0 Hm0)) as H.
  rewrite Hrun in H. exact H.
Qed.

Lemma reachable_step o m t :
  reachable m t → reachable (step o m).1 (t ++ (step o m).2).
Proof.
  intros (mc & m0 & ops & Hm0 & Hrun).
  exists mc, m0, (ops ++ [o]). split; [exact Hm0|].
  rewrite run_app, Hrun. simpl. destruct (step o m). reflexivity.
Qed.

Lemma init_returns mc m0 :
  __init__ mc = Returns m0 →
  0 < mc ∧ m0 = Build_AsyncRequestManager mc [] [] 0.
Proof.
  unfold __init__. destruct (Z.leb_spec mc 0); [discriminate|].
  intros [= <-]. split; [lia|reflexivity].
Qed.

(** ** Every call is one of four transitions *)

Lemma step_transition o m :
  dict_wf (active_requests m) → transition m o (step o m).1 (step o m).2.
Proof.
  intros Hwf. destruct o as [uuid4_hex image_data callback|w]; simpl.
  - destruct (Z.lt_ge_cases (len (active_requests m)) (max_concurrent m))
      as [Hroom|Hfull].
    { rewrite submit_request_start by exact Hroom. simpl.
      apply started, Hroom. }
    destruct (Z.lt_ge_cases (len (pending_requests m)) PENDING_REQUESTS_LIMIT)
      as [Hq|Hqfull].
    { rewrite submit_request_queue by assumption. simpl.
      apply queued; assumption. }
    rewrite submit_request_reject by assumption.
    pose proof (rejected m uuid4_hex image_data callback Hfull Hqfull) as Ht.
    destruct callback as [|f]; simpl in *; exact Ht.
  - destruct (process_spec w m Hwf)
      as (taken & rest & Hsplit & -> & Hexit & Hbound).
    simpl. apply reconciled; assumption.
Qed.

Lemma transition_wf m o m' t :
  transition m o m' t → dict_wf (active_requests m) →
  dict_wf (active_requests m').
Proof.
  destruct 1 as [h img cb Hroom id|h img cb Hfull Hq id|h img cb Hfull Hq id
                |w taken rest Hsplit Hexit Hbound]; simpl; intros Hwf.
  - apply dict_set_wf, Hwf.
  - exact Hwf.
  - exact Hwf.
  - assert (dict_wf (running w m)) as Hrun.
    { unfold dict_wf, keys, running.
      apply (sublist_NoDup _ _ Hwf), fmap_sublist, sublist_filter. }
    clear -Hrun. revert Hrun. generalize (running w m).
    induction taken as [|x taken IH]; intros d Hd; simpl; [exact Hd|].
    apply IH, dict_set_wf, Hd.
Qed.

Lemma reachable_wf m t : reachable m t → dict_wf (active_requests m).
Proof.
  revert m t. apply reachable_invariant.
  - intros mc m0 [_ ->]%init_returns. apply NoDup_nil_2.
  - intros o m t Hwf. eapply transition_wf; [|exact Hwf].
    apply step_transition, Hwf.
Qed.

Lemma reachable_transition o m t :
  reachable m t → transition m o (step o m).1 (step o m).2.
Proof. intros Hr. apply step_transition, (reachable_wf m t Hr). Qed.

(** ** The two bounds *)

Lemma transition_max_concurrent m o m' t :
  transition m o m' t → max_concurrent m' = max_concurrent m.
Proof. destruct 1; reflexivity. Qed.

Lemma transition_bounds m o m' t :
  transition m o m' t →
  len (active_requests m) ≤ max_concurrent m →
  len (pending_requests m) ≤ PENDING_REQUESTS_LIMIT →
  len (active_requests m') ≤ max_concurrent m
  ∧ len (pending_requests m') ≤ PENDING_REQUESTS_LIMIT.
Proof.
  destruct 1 as [h img cb Hroom id|h img cb Hfull Hq id|h img cb Hfull Hq id
                |w taken rest Hsplit Hexit Hbound]; simpl; intros Ha Hp.
  - split; [|exact Hp].
    match goal with |- len (dict_set ?k ?v ?d) ≤ _ =>
      pose proof (dict_set_len k v d) end. lia.
  - split; [exact Ha|]. unfold len in *. rewrite length_app. simpl. lia.
  - split; assumption.
  - split.
    + apply Hbound. unfold running.
      pose proof (filter_len (λ it, ¬ is_done w it) (active_requests m)). lia.
    + rewrite Hsplit in Hp. unfold len in *. rewrite length_app in Hp. lia.
Qed.

(** C1.  Starting from a fresh manager, after every call of every
    sequence of [submit_request] and [process_completed_requests] calls,
    the active set holds at most [max_concurrent] requests and the
    pending queue at most [PENDING_REQUESTS_LIMIT]. *)
Theorem ledger_bounds (mc : Z) (m0 : AsyncRequestManager) (ops : list op) :
  __init__ mc = Returns m0 →
  len (active_requests (run ops m0 []).1) ≤ mc
  ∧ len (pending_requests (run ops m0 []).1) ≤ PENDING_REQUESTS_LIMIT.
Proof.
  intros Hinit.
  pose (P := λ (m : AsyncRequestManager) (t : list event),
          reachable m t
          ∧ max_concurrent m = mc
          ∧ len (active_requests m) ≤ mc
          ∧ len (pending_requests m) ≤ PENDING_REQUESTS_LIMIT).
  enough (P (run ops m0 []).1 (run ops m0 []).2) as (_ & _ & Ha & Hp)
    by (split; assumption).
  apply run_invariant.
  - intros o m t (Hr & Hmc & Ha & Hp).
    pose proof (reachable_transition o m t Hr) as Ht.
    split; [apply reachable_step, Hr|].
    rewrite (transition_max_concurrent _ _ _ _ Ht). split; [exact Hmc|].
    rewrite <- Hmc in *. apply (transition_bounds _ _ _ _ Ht); assumption.
  - destruct (init_returns _ _ Hinit) as [Hpos ->].
    split; [|simpl; unfold len, PENDING_REQUESTS_LIMIT; simpl; lia].
    exists mc, (Build_AsyncRequestManager mc [] [] 0), [].
    split; [exact Hinit|reflexivity].
Qed.

(** ** Reading the trace of each transition *)

Lemma appended_harvest w l : appended (flat_map (harvest_events w) l) = [].
Proof.
  induction l as [|[k info] l IH]; [reflexivity|].
  cbn [flat_map]. unfold appended in *. rewrite omap_app, IH, app_nil_r.
  unfold harvest_events. simpl.
  destruct (w _); [destruct (Active.callback info)|]; reflexivity.
Qed.

Lemma promoted_harvest w l : promoted (flat_map (harvest_events w) l) = [].
Proof.
  induction l as [|[k info] l IH]; [reflexivity|].
  cbn [flat_map]. unfold promoted in *. rewrite omap_app, IH, app_nil_r.
  unfold harvest_events. simpl.
  destruct (w _); [destruct (Active.callback info)|]; reflexivity.
Qed.

Lemma appended_promote taken : appended (flat_map promote_events taken) = [].
Proof. induction taken as [|x taken IH]; [reflexivity|exact IH]. Qed.

Lemma promoted_promote taken :
  promoted (flat_map promote_events taken) = Queued.id <$> taken.
Proof.
  induction taken as [|x taken IH]; [reflexivity|].
  rewrite fmap_cons, <- IH. reflexivity.
Qed.

Lemma fired_promote taken : fired (flat_map promote_events taken) = [].
Proof. induction taken as [|x taken IH]; [reflexivity|exact IH]. Qed.

Lemma appended_reject request_id callback :
  appended (reject_events request_id callback) = [].
Proof. destruct callback; reflexivity. Qed.

Lemma promoted_reject request_id callback :
  promoted (reject_events request_id callback) = [].
Proof. destruct callback; reflexivity. Qed.

Lemma fired_reject request_id callback :
  fired (reject_events request_id callback)
  = if truthy callback then [request_id] else [].
Proof. destruct callback; reflexivity. Qed.

Lemma appended_locked body :
  appended (LockAcquire :: body ++ [LockRelease]) = appended body.
Proof.
  change (LockAcquire :: body ++ [LockRelease])
    with ([LockAcquire] ++ body ++ [LockRelease]).
  unfold appended. rewrite !omap_app. apply app_nil_r.
Qed.

Lemma promoted_locked body :
  promoted (LockAcquire :: body ++ [LockRelease]) = promoted body.
Proof.
  change (LockAcquire :: body ++ [LockRelease])
    with ([LockAcquire] ++ body ++ [LockRelease]).
  unfold promoted. rewrite !omap_app. apply app_nil_r.
Qed.

Lemma fired_locked body :
  fired (LockAcquire :: body ++ [LockRelease]) = fired body.
Proof.
  change (LockAcquire :: body ++ [LockRelease])
    with ([LockAcquire] ++ body ++ [LockRelease]).
  unfold fired. rewrite !omap_app. apply app_nil_r.
Qed.

(** ** Issued ids *)

Lemma issued_mono c c' request_id :
  (c ≤ c')%nat → issued c request_id → issued c' request_id.
Proof. intros Hle (n & h & -> & Hn). exists n, h. split; [reflexivity|lia]. Qed.

Lemma issued_next c uuid4_hex : issued (S c) (make_request_id (S c) uuid4_hex).
Proof. exists (S c), uuid4_hex. split; [reflexivity|lia]. Qed.

Lemma not_yet_issued c uuid4_hex :
  ¬ issued c (make_request_id (S c) uuid4_hex).
Proof. intros (n & h & Heq%make_request_id_inj & Hn). lia. Qed.

Lemma fresh_not_in c uuid4_hex (l : list string) :
  Forall (issued c) l → make_request_id (S c) uuid4_hex ∉ l.
Proof.
  intros Hall Hin. rewrite Forall_forall in Hall.
  exact (not_yet_issued c uuid4_hex (Hall _ Hin)).
Qed.

Lemma transition_counter m o m' t' :
  transition m o m' t' → (request_counter m ≤ request_counter m')%nat.
Proof. destruct 1; simpl; lia. Qed.

(** ** First in, first out *)

Lemma transition_fifo m o m' t t' :
  transition m o m' t' → fifo_inv m t → fifo_inv m' (t ++ t').
Proof.
  intros Ht (Heq & Hnodup & Hiss).
  pose proof (transition_counter _ _ _ _ Ht) as Hc.
  unfold fifo_inv, appended, promoted. rewrite !omap_app.
  fold (appended t) (promoted t) (appended t') (promoted t').
  destruct Ht as [h img cb Hroom id|h img cb Hfull Hq id|h img cb Hfull Hq id
                 |w taken rest Hsplit Hexit Hbound].
  - change (appended _) with (@nil string) at 2 4 6.
    change (promoted _) with (@nil string) at 2.
    rewrite !app_nil_r. split_and!; [exact Heq|exact Hnodup|].
    eapply Forall_impl; [exact Hiss|]. intros i. apply issued_mono, Hc.
  - change (appended [_; _; _]) with [id].
    change (promoted [_; _; _]) with (@nil string).
    rewrite app_nil_r. unfold pending_ids. cbn [pending_requests
      with_pending_requests]. rewrite fmap_app, app_assoc.
    fold (pending_ids m). rewrite <- Heq. split_and!; [reflexivity| |].
    + apply NoDup_app. split_and!; [exact Hnodup| |apply NoDup_singleton].
      intros x Hx ->%list_elem_of_singleton.
      exact (fresh_not_in _ _ _ Hiss Hx).
    + apply Forall_app. split.
      * eapply Forall_impl; [exact Hiss|]. intros i. apply issued_mono, Hc.
      * apply Forall_singleton, issued_next.
  - rewrite appended_locked, promoted_locked, appended_reject,
      promoted_reject, !app_nil_r.
    split_and!; [exact Heq|exact Hnodup|].
    eapply Forall_impl; [exact Hiss|]. intros i. apply issued_mono, Hc.
  - rewrite appended_locked, promoted_locked.
    unfold appended at 2 4 6, promoted at 2. rewrite !omap_app.
    fold (appended (flat_map (harvest_events w) (finished w m)))
         (promoted (flat_map (harvest_events w) (finished w m)))
         (appended (flat_map promote_events taken))
         (promoted (flat_map promote_events taken)).
    rewrite appended_harvest, promoted_harvest, appended_promote,
      promoted_promote. cbn [app]. rewrite !app_nil_r.
    split_and!; [|exact Hnodup|exact Hiss].
    rewrite Heq, <- app_assoc. f_equal. unfold pending_ids.
    cbn [pending_requests with_pending_requests].
    rewrite Hsplit, fmap_app. reflexivity.
Qed.

Lemma reachable_fifo m t : reachable m t → fifo_inv m t.
Proof.
  intros Hr.
  enough (reachable m t ∧ fifo_inv m t) as [_ H] by exact H.
  revert m t Hr. apply reachable_invariant.
  - intros mc m0 Hinit. split.
    + exists mc, m0, []. split; [exact Hinit|reflexivity].
    + apply init_returns in Hinit as [_ ->].
      split_and!; [reflexivity|apply NoDup_nil_2|constructor].
  - intros o m t [Hr Hinv]. split; [apply reachable_step, Hr|].
    apply (transition_fifo m o); [apply (reachable_transition o m t Hr)|].
    exact Hinv.
Qed.

Lemma appended_app t t' : appended (t ++ t') = appended t ++ appended t'.
Proof. apply omap_app. Qed.

Lemma promoted_app t t' : promoted (t ++ t') = promoted t ++ promoted t'.
Proof. apply omap_app. Qed.

Lemma fired_app t t' : fired (t ++ t') = fired t ++ fired t'.
Proof. apply omap_app. Qed.

Lemma appended_cons i t : appended (PendingAppend i :: t) = i :: appended t.
Proof. reflexivity. Qed.

Lemma promoted_cons i t : promoted (PendingPopleft i :: t) = i :: promoted t.
Proof. reflexivity. Qed.

Lemma NoDup_middle_notin {A} (l1 l2 : list A) (x : A) :
  NoDup (l1 ++ x :: l2) → x ∉ l1.
Proof.
  intros (_ & Hdisj & _)%NoDup_app Hin.
  apply (Hdisj x Hin), list_elem_of_here.
Qed.

(** ** A request taken off the queue becomes active *)

Lemma promotions_complete_app t t' :
  promotions_complete t → promotions_complete t' →
  promotions_complete (t ++ t').
Proof.
  intros Ht Ht' before after i Heq.
  apply app_eq_inv in Heq as [(k & -> & Hk)|(k & -> & Hk)].
  - destruct k as [|ev k]; cbn [app] in Hk.
    + destruct (Ht' [] after i (eq_sym Hk)) as (after' & ->).
      eexists. reflexivity.
    + injection Hk as <- ->.
      destruct (Ht before k i eq_refl) as (after' & ->).
      eexists. cbn [app]. reflexivity.
  - destruct (Ht' k after i Hk) as (after' & ->). eexists. reflexivity.
Qed.

Lemma promotions_complete_none t :
  (∀ i, ¬ (PendingPopleft i ∈ t)) → promotions_complete t.
Proof.
  intros Hnone before after i ->. destruct (Hnone i).
  apply elem_of_app. right. apply list_elem_of_here.
Qed.

Lemma promotions_complete_promote taken :
  promotions_complete (flat_map promote_events taken).
Proof.
  induction taken as [|x taken IH]; cbn [flat_map].
  - apply promotions_complete_none. intros i []%elem_of_nil.
  - intros before after i Heq. unfold promote_events at 1 in Heq.
    cbn [app] in Heq. destruct before as [|ev before]; cbn [app] in Heq.
    + injection Heq as <- <-. eexists. reflexivity.
    + injection Heq as <- Heq.
      destruct before as [|ev before]; [discriminate Heq|].
      injection Heq as <- Heq.
      destruct before as [|ev before]; [discriminate Heq|].
      injection Heq as <- Heq. exact (IH before after i Heq).
Qed.

Lemma popleft_not_harvest w l i :
  ¬ (PendingPopleft i ∈ flat_map (harvest_events w) l).
Proof.
  induction l as [|[k info] l IH]; cbn [flat_map].
  - intros []%elem_of_nil.
  - intros [Hin|Hin]%elem_of_app; [|exact (IH Hin)].
    unfold harvest_events in Hin. simpl in Hin.
    destruct (w _); [destruct (Active.callback info)|];
      absent_from_trace Hin.
Qed.

Lemma transition_promotions m o m' t' :
  transition m o m' t' → promotions_complete t'.
Proof.
  destruct 1 as [h img cb Hroom id|h img cb Hfull Hq id|h img cb Hfull Hq id
                |w taken rest Hsplit Hexit Hbound].
  - apply promotions_complete_none. intros i Hin. absent_from_trace Hin.
  - apply promotions_complete_none. intros i Hin. absent_from_trace Hin.
  - apply promotions_complete_none. intros i Hin.
    destruct cb; absent_from_trace Hin.
  - change (LockAcquire :: ?x) with ([LockAcquire] ++ x).
    repeat apply promotions_complete_app.
    + apply promotions_complete_none. intros i Hin. absent_from_trace Hin.
    + apply promotions_complete_none, popleft_not_harvest.
    + apply promotions_complete_promote.
    + apply promotions_complete_none. intros i Hin. absent_from_trace Hin.
Qed.

Lemma reachable_promotions m t : reachable m t → promotions_complete t.
Proof.
  intros Hr.
  enough (reachable m t ∧ promotions_complete t) as [_ H] by exact H.
  revert m t Hr. apply reachable_invariant.
  - intros mc m0 Hinit. split.
    + exists mc, m0, []. split; [exact Hinit|reflexivity].
    + apply promotions_complete_none. intros i []%elem_of_nil.
  - intros o m t [Hr Hinv]. split; [apply reachable_step, Hr|].
    apply promotions_complete_app; [exact Hinv|].
    exact (transition_promotions _ _ _ _ (reachable_transition o m t Hr)).
Qed.

(** C4.  Requests are promoted in the order they were queued: in every
    execution, if [a] was appended to the pending queue before [b], then
    by the time [b] is taken off the queue, [a] has been taken off it,
    handed to the executor and entered in the active set. *)
Theorem fifo_promotion (mc : Z) (m0 : AsyncRequestManager) (ops : list op)
    (a b : string) (t1 t2 t3 u1 u2 : list event) :
  __init__ mc = Returns m0 →
  (run ops m0 []).2 = t1 ++ PendingAppend a :: t2 ++ PendingAppend b :: t3 →
  (run ops m0 []).2 = u1 ++ PendingPopleft b :: u2 →
  ∃ v1 v2,
    u1 = v1 ++ PendingPopleft a :: ExecutorSubmit a :: ActiveInsert a :: v2.
Proof.
  intros Hinit Happ Hpop.
  assert (reachable (run ops m0 []).1 (run ops m0 []).2) as Hr.
  { exists mc, m0, ops. split; [exact Hinit|]. destruct (run ops m0 []).
    reflexivity. }
  pose proof (reachable_promotions _ _ Hr) as Hcomplete.
  destruct (reachable_fifo _ _ Hr) as (Heq & Hnodup & _).
  rewrite Hpop in Heq at 2. rewrite Happ in Heq, Hnodup.
  rewrite promoted_app, promoted_cons in Heq.
  rewrite appended_app, appended_cons, appended_app, appended_cons
    in Heq, Hnodup.
  assert (appended t1 ++ a :: appended t2 ++ b :: appended t3
          = (appended t1 ++ a :: appended t2) ++ b :: appended t3) as Hassoc
    by (rewrite <- app_assoc; reflexivity).
  rewrite Hassoc in Heq, Hnodup.
  pose proof (NoDup_middle_notin _ _ _ Hnodup) as Hb1.
  rewrite Heq, <- app_assoc in Hnodup.
  pose proof (NoDup_middle_notin _ _ _ Hnodup) as Hb2.
  rewrite <- (app_assoc (promoted u1)) in Heq. cbn [app] in Heq.
  apply not_elem_of_app_cons_inv_l in Heq as (Hpre & _ & _);
    [|exact Hb2|exact Hb1].
  assert (a ∈ promoted u1) as Ha.
  { rewrite <- Hpre. apply elem_of_app. right. apply list_elem_of_here. }
  apply list_elem_of_omap in Ha as (ev & Hev & Hi).
  destruct ev; try discriminate. injection Hi as ->.
  apply list_elem_of_split in Hev as (v1 & v2 & ->).
  rewrite <- app_assoc in Hpop. cbn [app] in Hpop.
  destruct (Hcomplete _ _ _ Hpop) as (after' & Hafter).
  exists v1. destruct v2 as [|e1 v2]; [discriminate Hafter|].
  injection Hafter as -> Hafter.
  destruct v2 as [|e2 v2]; [discriminate Hafter|].
  injection Hafter as -> Hafter.
  exists v2. reflexivity.
Qed.

(** ** No id is known twice *)

Lemma NoDup_submseteq_inv {A} (l k : list A) : l ⊆+ k → NoDup k → NoDup l.
Proof.
  intros (l' & Hsub & Hperm)%submseteq_sublist_l Hk.
  apply (sublist_NoDup _ l'); [|exact Hsub]. rewrite Hperm. exact Hk.
Qed.

Lemma fired_harvest w l :
  fired (flat_map (harvest_events w) l) `sublist_of` keys l.
Proof.
  induction l as [|[k info] l IH]; [constructor|].
  cbn [flat_map]. rewrite fired_app. unfold keys. rewrite fmap_cons.
  change ((k, info).1 :: l.*1) with ([k] ++ l.*1).
  apply sublist_app; [|exact IH].
  unfold harvest_events. simpl.
  destruct (w _); [destruct (Active.callback info)|]; simpl;
    repeat constructor.
Qed.

Lemma start_all_fresh taken :
  ∀ d, NoDup (keys d ++ (Queued.id <$> taken)) →
       start_all taken d
       = d ++ ((λ q, (Queued.id q, start_queued q)) <$> taken).
Proof.
  induction taken as [|x taken IH]; intros d Hnodup; simpl.
  - rewrite app_nil_r. reflexivity.
  - rewrite fmap_cons in Hnodup.
    rewrite dict_set_keys_fresh by exact (NoDup_middle_notin _ _ _ Hnodup).
    rewrite IH, <- app_assoc; [reflexivity|].
    unfold keys. rewrite fmap_app, <- app_assoc. exact Hnodup.
Qed.

Lemma keys_start_all taken d :
  NoDup (keys d ++ (Queued.id <$> taken)) →
  keys (start_all taken d) = keys d ++ (Queued.id <$> taken).
Proof.
  intros Hnodup. rewrite start_all_fresh by exact Hnodup.
  unfold keys. rewrite fmap_app, <- list_fmap_compose. reflexivity.
Qed.

Lemma keys_partition w m :
  keys (finished w m) ++ keys (running w m) ≡ₚ keys (active_requests m).
Proof.
  unfold keys, finished, running. rewrite <- fmap_app.
  apply fmap_Permutation, filter_app_complement.
Qed.

Lemma transition_ids m o m' t t' :
  transition m o m' t' → ids_inv m t → ids_inv m' (t ++ t').
Proof.
  intros Ht [Hnodup Hiss].
  pose proof (transition_counter _ _ _ _ Ht) as Hc.
  assert (∀ l, (∀ x, x ∈ l → x ∈ known_ids m t) →
               Forall (issued (request_counter m')) l) as Hold.
  { intros l Hl. apply Forall_forall. intros x Hx.
    rewrite Forall_forall in Hiss.
    exact (issued_mono _ _ _ Hc (Hiss x (Hl x Hx))). }
  unfold ids_inv, known_ids in *. rewrite fired_app.
  destruct Ht as [h img cb Hroom id|h img cb Hfull Hq id|h img cb Hfull Hq id
                 |w taken rest Hsplit Hexit Hbound].
  - pose proof (fresh_not_in _ h _ Hiss) as Hfresh. fold id in Hfresh.
    change (fired [_; _; _; _]) with (@nil string). rewrite app_nil_r.
    unfold active_ids, pending_ids in *.
    cbn [active_requests pending_requests with_active_requests
           with_request_counter request_counter] in *.
    rewrite dict_set_keys, bool_decide_eq_false_2
      by (intros Hin; apply Hfresh, elem_of_app; left; exact Hin).
    assert ((keys (active_requests m) ++ [id])
              ++ (Queued.id <$> pending_requests m) ++ fired t
            ≡ₚ id :: keys (active_requests m)
                 ++ (Queued.id <$> pending_requests m) ++ fired t) as Hperm
      by solve_Permutation.
    rewrite Hperm. split.
    + apply NoDup_cons. split; assumption.
    + apply Forall_cons. split; [apply issued_next|].
      apply Hold. intros x Hx; exact Hx.
  - pose proof (fresh_not_in _ h _ Hiss) as Hfresh. fold id in Hfresh.
    change (fired [_; _; _]) with (@nil string). rewrite app_nil_r.
    unfold active_ids, pending_ids in *.
    cbn [active_requests pending_requests with_pending_requests
           with_request_counter request_counter] in *.
    rewrite fmap_app. cbn [fmap list_fmap Queued.id].
    assert (keys (active_requests m)
              ++ ((Queued.id <$> pending_requests m) ++ [id]) ++ fired t
            ≡ₚ id :: keys (active_requests m)
                 ++ (Queued.id <$> pending_requests m) ++ fired t) as Hperm
      by solve_Permutation.
    rewrite Hperm. split.
    + apply NoDup_cons. split; assumption.
    + apply Forall_cons. split; [apply issued_next|].
      apply Hold. intros x Hx; exact Hx.
  - pose proof (fresh_not_in _ h _ Hiss) as Hfresh. fold id in Hfresh.
    rewrite fired_locked, fired_reject.
    unfold active_ids, pending_ids in *.
    cbn [active_requests pending_requests with_request_counter
           request_counter] in *.
    destruct (truthy cb).
    + assert (keys (active_requests m)
                ++ (Queued.id <$> pending_requests m) ++ fired t ++ [id]
              ≡ₚ id :: keys (active_requests m)
                   ++ (Queued.id <$> pending_requests m) ++ fired t)
        as Hperm by solve_Permutation.
      rewrite Hperm. split.
      * apply NoDup_cons. split; assumption.
      * apply Forall_cons. split; [apply issued_next|].
        apply Hold. intros x Hx; exact Hx.
    + rewrite app_nil_r. split; [exact Hnodup|].
      apply Hold. intros x Hx; exact Hx.
  - rewrite fired_locked, fired_app, fired_promote, app_nil_r.
    unfold active_ids, pending_ids in *.
    cbn [active_requests pending_requests with_active_requests
           with_pending_requests request_counter] in *.
    rewrite Hsplit, fmap_app in Hnodup, Hold.
    pose proof (keys_partition w m) as Hpart.
    pose proof (sublist_submseteq _ _ (fired_harvest w (finished w m)))
      as Hfired.
    rewrite <- Hpart in Hnodup.
    assert (NoDup (keys (running w m) ++ (Queued.id <$> taken))) as Hfresh.
    { eapply NoDup_submseteq_inv; [|exact Hnodup]. solve_submseteq. }
    rewrite (keys_start_all _ _ Hfresh).
    assert ((keys (running w m) ++ (Queued.id <$> taken))
              ++ (Queued.id <$> rest)
              ++ fired t ++ fired (flat_map (harvest_events w) (finished w m))
            ⊆+ (keys (finished w m) ++ keys (running w m))
                 ++ ((Queued.id <$> taken) ++ (Queued.id <$> rest))
                 ++ fired t) as Hsub.
    { etransitivity.
      - apply submseteq_skips_l, submseteq_skips_l, submseteq_skips_l.
        exact Hfired.
      - solve_submseteq. }
    split.
    + exact (NoDup_submseteq_inv _ _ Hsub Hnodup).
    + apply Hold. intros x Hx. rewrite <- Hpart.
      exact (elem_of_submseteq _ _ _ Hx Hsub).
Qed.

Lemma reachable_ids m t : reachable m t → ids_inv m t.
Proof.
  intros Hr.
  enough (reachable m t ∧ ids_inv m t) as [_ H] by exact H.
  revert m t Hr. apply reachable_invariant.
  - intros mc m0 Hinit. split.
    + exists mc, m0, []. split; [exact Hinit|reflexivity].
    + apply init_returns in Hinit as [_ ->].
      split; [apply NoDup_nil_2|constructor].
  - intros o m t [Hr Hinv]. split; [apply reachable_step, Hr|].
    apply (transition_ids m o); [apply (reachable_transition o m t Hr)|].
    exact Hinv.
Qed.

Lemma run_reachable mc m0 ops :
  __init__ mc = Returns m0 → reachable (run ops m0 []).1 (run ops m0 []).2.
Proof.
  intros Hinit. exists mc, m0, ops. split; [exact Hinit|].
  destruct (run ops m0 []). reflexivity.
Qed.

(** C6.  In every execution from a fresh manager, after every call: no
    request id occurs twice in the active set and the pending queue
    taken together (so never in both), and an id whose callback has been
    fired, in place on rejection or on a thread at harvest, is in
    neither. *)
Theorem ids_exclusive (mc : Z) (m0 : AsyncRequestManager) (ops : list op) :
  __init__ mc = Returns m0 →
  NoDup (active_ids (run ops m0 []).1 ++ pending_ids (run ops m0 []).1)
  ∧ (∀ request_id,
       request_id ∈ active_ids (run ops m0 []).1 →
       request_id ∉ pending_ids (run ops m0 []).1)
  ∧ (∀ request_id,
       request_id ∈ fired (run ops m0 []).2 →
       (request_id ∉ active_ids (run ops m0 []).1)
       ∧ (request_id ∉ pending_ids (run ops m0 []).1)).
Proof.
  intros Hinit.
  destruct (reachable_ids _ _ (run_reachable mc m0 ops Hinit)) as [Hnodup _].
  unfold known_ids in Hnodup. revert Hnodup.
  generalize (active_ids (run ops m0 []).1) (pending_ids (run ops m0 []).1)
    (fired (run ops m0 []).2).
  intros A P F Hnodup.
  rewrite app_assoc in Hnodup.
  apply NoDup_app in Hnodup as (HAP & Hdisj & _).
  split_and!.
  - exact HAP.
  - intros i Hi. apply NoDup_app in HAP as (_ & HAP & _). exact (HAP i Hi).
  - intros i Hi. split; intros Hin; apply (Hdisj i); try exact Hi;
      apply elem_of_app; [left|right]; exact Hin.
Qed.

(** ** What a pass dispatches *)

Lemma popped_app t t' : popped (t ++ t') = popped t ++ popped t'.
Proof. apply omap_app. Qed.

Lemma dispatches_app i t t' :
  dispatches i (t ++ t') = dispatches i t ++ dispatches i t'.
Proof. apply omap_app. Qed.

Lemma popped_locked body :
  popped (LockAcquire :: body ++ [LockRelease]) = popped body.
Proof.
  change (LockAcquire :: body ++ [LockRelease])
    with ([LockAcquire] ++ body ++ [LockRelease]).
  rewrite !popped_app. apply app_nil_r.
Qed.

Lemma dispatches_locked i body :
  dispatches i (LockAcquire :: body ++ [LockRelease]) = dispatches i body.
Proof.
  change (LockAcquire :: body ++ [LockRelease])
    with ([LockAcquire] ++ body ++ [LockRelease]).
  rewrite !dispatches_app. apply app_nil_r.
Qed.

Lemma popped_promote taken : popped (flat_map promote_events taken) = [].
Proof. induction taken as [|x taken IH]; [reflexivity|exact IH]. Qed.

Lemma dispatches_promote i taken :
  dispatches i (flat_map promote_events taken) = [].
Proof. induction taken as [|x taken IH]; [reflexivity|exact IH]. Qed.

Lemma popped_harvest w l : popped (flat_map (harvest_events w) l) = keys l.
Proof.
  induction l as [|[k info] l IH]; [reflexivity|].
  cbn [flat_map]. rewrite popped_app, IH. unfold keys. rewrite fmap_cons.
  unfold harvest_events. simpl.
  destruct (w _); [destruct (Active.callback info)|]; reflexivity.
Qed.

Lemma dispatches_harvest_other w i l :
  i ∉ keys l → dispatches i (flat_map (harvest_events w) l) = [].
Proof.
  induction l as [|[k info] l IH]; [reflexivity|].
  unfold keys. rewrite fmap_cons. intros [Hne Hl]%not_elem_of_cons.
  cbn [flat_map]. rewrite dispatches_app, (IH Hl), app_nil_r.
  unfold harvest_events. simpl in *.
  destruct (w _); [destruct (Active.callback info)|]; try reflexivity.
  simpl. destruct (String.eqb_spec k i) as [->|_]; [done|reflexivity].
Qed.

Lemma harvest_events_done w k info :
  is_done w (k, info) →
  ∃ post,
    w (task_request_id (Active.future info)) = Some post
    ∧ harvest_events w (k, info)
      = ActivePop k ::
        match Active.callback info with
        | PyNone => []
        | PyCallable f =>
            [ThreadStart k (verification_result post) None
               (f (verification_result post) None)]
        end.
Proof.
  unfold is_done, future_done, harvest_events. simpl.
  destruct (w _) as [post|]; [|done]. intros _. exists post.
  split; reflexivity.
Qed.

Lemma finished_in w m item :
  item ∈ finished w m ↔ item ∈ active_requests m ∧ is_done w item.
Proof. unfold finished. rewrite list_elem_of_filter. tauto. Qed.

Lemma running_in w m item :
  item ∈ running w m ↔ item ∈ active_requests m ∧ ¬ is_done w item.
Proof. unfold running. rewrite list_elem_of_filter. tauto. Qed.

(** The shape of a pass on a reachable manager. *)
Lemma reachable_pass w m t :
  reachable m t →
  ∃ taken rest,
    pending_requests m = taken ++ rest
    ∧ process_completed_requests w m
      = (Ok tt,
         with_pending_requests rest
           (with_active_requests
              (running w m ++ ((λ q, (Queued.id q, start_queued q)) <$> taken))
              m),
         LockAcquire ::
           (flat_map (harvest_events w) (finished w m)
              ++ flat_map promote_events taken) ++ [LockRelease])
    ∧ (len (running w m) + len taken < max_concurrent m → rest = [])
    ∧ NoDup (keys (finished w m) ++ keys (running w m)
               ++ (Queued.id <$> taken) ++ (Queued.id <$> rest)).
Proof.
  intros Hr.
  destruct (process_spec w m (reachable_wf _ _ Hr))
    as (taken & rest & Hsplit & Hrun & Hexit & _).
  fold (running w m) (finished w m) in Hrun, Hexit.
  destruct (reachable_ids _ _ Hr) as [Hnodup _].
  assert (NoDup (keys (finished w m) ++ keys (running w m)
                   ++ (Queued.id <$> taken) ++ (Queued.id <$> rest)))
    as Hnodup'.
  { eapply NoDup_submseteq_inv; [|exact Hnodup].
    unfold known_ids, active_ids, pending_ids.
    rewrite <- (keys_partition w m), Hsplit, fmap_app. solve_submseteq. }
  assert (NoDup (keys (running w m) ++ (Queued.id <$> taken))) as Hfresh.
  { eapply NoDup_submseteq_inv; [|exact Hnodup']. solve_submseteq. }
  rewrite (start_all_fresh _ _ Hfresh) in Hrun, Hexit.
  exists taken, rest. split_and!; [exact Hsplit|exact Hrun| |exact Hnodup'].
  intros Hlt. apply Hexit. unfold len in *.
  rewrite length_app, length_fmap. lia.
Qed.

(** Where the events of one finished request sit in the trace of a pass. *)
Lemma pass_dispatch w m t request_id request_info :
  reachable m t →
  (request_id, request_info) ∈ active_requests m →
  is_done w (request_id, request_info) →
  ∃ before after,
    (process_completed_requests w m).2
    = before ++ harvest_events w (request_id, request_info) ++ after
    ∧ dispatches request_id before = []
    ∧ dispatches request_id after = [].
Proof.
  intros Hr Hin Hdone.
  destruct (reachable_pass w m t Hr)
    as (taken & rest & Hsplit & -> & _ & Hnodup).
  assert ((request_id, request_info) ∈ finished w m) as Hfin
    by (apply finished_in; split; assumption).
  apply list_elem_of_split in Hfin as (l1 & l2 & Hl).
  rewrite Hl in *. unfold keys in Hnodup.
  rewrite fmap_app, fmap_cons in Hnodup. cbn [fst] in Hnodup.
  apply NoDup_app in Hnodup as (Hfinished & _ & _).
  pose proof (NoDup_middle_notin _ _ _ Hfinished) as Hl1.
  apply NoDup_app in Hfinished as (_ & _ & [Hl2 _]%NoDup_cons).
  exists (LockAcquire :: flat_map (harvest_events w) l1),
    (flat_map (harvest_events w) l2
       ++ flat_map promote_events taken ++ [LockRelease]).
  split_and!.
  - cbn [snd]. rewrite flat_map_app. cbn [flat_map].
    rewrite <- !app_assoc. reflexivity.
  - change (LockAcquire :: ?x) with ([LockAcquire] ++ x).
    rewrite dispatches_app. apply dispatches_harvest_other, Hl1.
  - rewrite !dispatches_app, dispatches_promote.
    rewrite dispatches_harvest_other by exact Hl2. reflexivity.
Qed.

Lemma dispatches_harvest_events w k info :
  dispatches k (harvest_events w (k, info))
  = match w (task_request_id (Active.future info)), Active.callback info with
    | Some post, PyCallable f =>
        [(verification_result post, None, f (verification_result post) None)]
    | _, _ => []
    end.
Proof.
  unfold harvest_events. simpl.
  destruct (w _); [destruct (Active.callback info)|]; try reflexivity.
  simpl. rewrite String.eqb_refl. reflexivity.
Qed.

(** C5, as the code has it.  A pass of [process_completed_requests] on a
    reachable manager returns; it pops from the active set exactly the
    requests whose future is done, which are no longer active afterwards;
    the entries whose future is not done stay as they were; and for each
    popped request that has a callback, the callback is dispatched
    exactly once, right after the pop, with what the future of the
    request returned and no error: the decoded body when the
    verification call got status 200 and [None] when the call failed or
    the body could not be decoded.  A popped request without a callback
    gets no dispatch. *)
Theorem harvest_pass (m : AsyncRequestManager) (t : list event) (w : World) :
  reachable m t →
  ∃ m' t',
    process_completed_requests w m = (Ok tt, m', t')
    ∧ popped t' = keys (filter (λ item, is_done w item) (active_requests m))
    ∧ (∀ request_id, request_id ∈ popped t' → request_id ∉ active_ids m')
    ∧ (∀ item, item ∈ active_requests m → ¬ is_done w item →
               item ∈ active_requests m')
    ∧ (∀ request_id request_info f,
         (request_id, request_info) ∈ active_requests m →
         is_done w (request_id, request_info) →
         Active.callback request_info = PyCallable f →
         ∃ post result before after,
           w (task_request_id (Active.future request_info)) = Some post
           ∧ t' = before
                    ++ ActivePop request_id
                    :: ThreadStart request_id result None (f result None)
                    :: after
           ∧ dispatches request_id t' = [(result, None, f result None)]
           ∧ (∀ response body,
                post = Returns response →
                status_code response = 200 →
                json response = Returns body →
                result = body)
           ∧ (call_failed post → result = JNone)
           ∧ (∀ response e,
                post = Returns response →
                json response = Raises e →
                result = JNone))
    ∧ (∀ request_id request_info,
         (request_id, request_info) ∈ active_requests m →
         is_done w (request_id, request_info) →
         Active.callback request_info = PyNone →
         dispatches request_id t' = []).
Proof.
  intros Hr.
  destruct (reachable_pass w m t Hr)
    as (taken & rest & Hsplit & Hrun & _ & Hnodup).
  eexists _, _. split; [exact Hrun|].
  assert (popped (LockAcquire ::
            (flat_map (harvest_events w) (finished w m)
               ++ flat_map promote_events taken) ++ [LockRelease])
          = keys (finished w m)) as Hpopped.
  { rewrite popped_locked, popped_app, popped_harvest, popped_promote.
    apply app_nil_r. }
  split_and!.
  - exact Hpopped.
  - intros i. rewrite Hpopped. intros Hi.
    unfold active_ids, keys. cbn [active_requests with_pending_requests
      with_active_requests]. rewrite fmap_app, <- list_fmap_compose.
    apply NoDup_app in Hnodup as (_ & Hdisj & _).
    intros Hin. apply (Hdisj i Hi).
    apply elem_of_app in Hin as [Hin|Hin]; apply elem_of_app; [left|right].
    + exact Hin.
    + apply elem_of_app. left. exact Hin.
  - intros item Hin Hrunning.
    cbn [active_requests with_pending_requests with_active_requests].
    apply elem_of_app. left. apply running_in. split; assumption.
  - intros i info f Hin Hdone Hcb.
    destruct (pass_dispatch w m t i info Hr Hin Hdone)
      as (before & after & Heq & Hbefore & Hafter).
    rewrite Hrun in Heq. cbn [snd] in Heq.
    destruct (harvest_events_done w i info Hdone) as (post & Hw & Hev).
    rewrite Hcb in Hev.
    exists post, (verification_result post), before, after. split_and!.
    + exact Hw.
    + rewrite Heq, Hev. reflexivity.
    + rewrite Heq, !dispatches_app, Hbefore, Hafter, app_nil_r.
      rewrite dispatches_harvest_events, Hw, Hcb. reflexivity.
    + intros response body -> Hstatus Hbody. simpl.
      rewrite Hstatus, Hbody. reflexivity.
    + intros Hfailed. destruct post as [response|e]; [|reflexivity].
      simpl in *. apply Z.eqb_neq in Hfailed. rewrite Hfailed. reflexivity.
    + intros response e -> Hbody. simpl. rewrite Hbody.
      destruct (status_code response =? 200); reflexivity.
  - intros i info Hin Hdone Hcb.
    destruct (pass_dispatch w m t i info Hr Hin Hdone)
      as (before & after & Heq & Hbefore & Hafter).
    rewrite Hrun in Heq. cbn [snd] in Heq.
    rewrite Heq, !dispatches_app, Hbefore, Hafter, app_nil_r.
    rewrite dispatches_harvest_events, Hcb.
    destruct (w _); reflexivity.
Qed.


(** C10.  A missing callback is treated differently on the two paths.  A
    submission with [None] for callback is accepted while there is room
    in the active set or in the queue, and when the request is harvested
    the pass pops it and dispatches nothing for it; but when the same
    submission is turned away, [submit_request] raises [TypeError]
    instead of returning [None]. *)
Theorem missing_callback_asymmetry (m : AsyncRequestManager)
    (t : list event) :
  reachable m t →
  (∀ uuid4_hex image_data,
     len (active_requests m) < max_concurrent m
     ∨ len (pending_requests m) < PENDING_REQUESTS_LIMIT →
     ∃ m' t',
       submit_request uuid4_hex image_data PyNone m
       = (Ok (Some (make_request_id (S (request_counter m)) uuid4_hex)),
          m', t'))
  ∧ (∀ w request_id request_info,
       (request_id, request_info) ∈ active_requests m →
       is_done w (request_id, request_info) →
       Active.callback request_info = PyNone →
       ∃ m' t',
         process_completed_requests w m = (Ok tt, m', t')
         ∧ request_id ∈ popped t'
         ∧ dispatches request_id t' = [])
  ∧ (∀ uuid4_hex image_data,
       max_concurrent m ≤ len (active_requests m) →
       PENDING_REQUESTS_LIMIT ≤ len (pending_requests m) →
       ∃ m',
         submit_request uuid4_hex image_data PyNone m
         = (Raise (Exn TypeError "'NoneType' object is not callable"),
            m', [LockAcquire; LockRelease])).
Proof.
  intros Hr. split_and!.
  - intros h img Hroom.
    destruct (Z.lt_ge_cases (len (active_requests m)) (max_concurrent m))
      as [Ha|Ha].
    + rewrite submit_request_start by exact Ha. eexists _, _. reflexivity.
    + destruct Hroom as [Hroom|Hq]; [lia|].
      rewrite submit_request_queue by assumption. eexists _, _. reflexivity.
  - intros w i info Hin Hdone Hcb.
    destruct (reachable_pass w m t Hr)
      as (taken & rest & Hsplit & Hrun & _ & _).
    destruct (pass_dispatch w m t i info Hr Hin Hdone)
      as (before & after & Heq & Hbefore & Hafter).
    rewrite Hrun in Heq. cbn [snd] in Heq.
    eexists _, _. split; [exact Hrun|]. split.
    + rewrite popped_locked, popped_app, popped_harvest, popped_promote,
        app_nil_r.
      apply (list_elem_of_fmap_2 fst _ (i, info)), finished_in.
      split; assumption.
    + rewrite Heq, !dispatches_app, Hbefore, Hafter, app_nil_r.
      rewrite dispatches_harvest_events, Hcb.
      destruct (w _); reflexivity.
  - intros h img Ha Hq. rewrite submit_request_reject by assumption.
    eexists. reflexivity.
Qed.

(** ** Errors never reach the callback *)

Lemma thread_start_harvest w l request_id result error does :
  ThreadStart request_id result error does
    ∈ flat_map (harvest_events w) l →
  error = None.
Proof.
  induction l as [|[k info] l IH]; cbn [flat_map].
  - intros []%elem_of_nil.
  - intros [Hin|Hin]%elem_of_app; [|exact (IH Hin)].
    unfold harvest_events in Hin. simpl in Hin.
    apply elem_of_cons in Hin as [Hin|Hin]; [discriminate|].
    destruct (w _); [destruct (Active.callback info)|];
      try (apply elem_of_nil in Hin; destruct Hin).
    apply list_elem_of_singleton in Hin. injection Hin as _ _ -> _.
    reflexivity.
Qed.

Lemma thread_start_promote taken request_id result error does :
  ThreadStart request_id result error does
    ∉ flat_map promote_events taken.
Proof.
  induction taken as [|x taken IH]; cbn [flat_map].
  - apply not_elem_of_nil.
  - unfold promote_events at 1. cbn [app].
    rewrite !not_elem_of_cons. split_and!; try discriminate. exact IH.
Qed.

(** C9.  [_make_request] always returns, and never raises: the body that
    [response.json()] parsed when the status is 200, and [None] when the
    status is not 200, when [requests.post] raised (a timeout or anything
    else) and when [response.json()] raised; it returns something other
    than [None] only for a status of 200.  So [future.result()] returns
    for every future that is done, the [try] block of the harvest loop
    never raises, which leaves its [except] block without a way in, and
    every callback a pass dispatches gets [None] for error. *)
Theorem make_request_never_raises :
  (∀ post image_data request_id m,
     ∃ v,
       _make_request post image_data request_id m
       = (Ok v, m, [HttpPost request_id])
       ∧ (∀ response body,
            post = Returns response → status_code response = 200 →
            json response = Returns body → v = body)
       ∧ (v ≠ JNone →
          ∃ response,
            post = Returns response ∧ status_code response = 200
            ∧ json response = Returns v)
       ∧ (∀ response,
            post = Returns response → status_code response ≠ 200 →
            v = JNone)
       ∧ (∀ e, post = Raises e → v = JNone)
       ∧ (∀ response e,
            post = Returns response → json response = Raises e →
            v = JNone))
  ∧ (∀ w future m,
       future_done w future = true →
       ∃ v, future_result w future m = (Ok v, m, []))
  ∧ (∀ w request_id request_info m e,
       (harvest_try w request_id request_info m).1.1 ≠ Raise e)
  ∧ (∀ m t w request_id result error does,
       reachable m t →
       ThreadStart request_id result error does
         ∈ (process_completed_requests w m).2 →
       error = None).
Proof.
  split_and!.
  - intros post img i m. exists (verification_result post).
    split; [apply _make_request_eq|]. unfold verification_result.
    split_and!.
    + intros r body -> Hs Hj. rewrite Hs, Hj. reflexivity.
    + destruct post as [r|e]; [|done].
      destruct (Z.eqb_spec (status_code r) 200) as [Hs|Hs]; [|done].
      destruct (json r) as [body|e] eqn:Hj; [|done].
      intros _. exists r. rewrite Hj. done.
    + intros r -> Hs. apply Z.eqb_neq in Hs. rewrite Hs. reflexivity.
    + intros e ->. reflexivity.
    + intros r e -> Hj. rewrite Hj. destruct (_ =? _); reflexivity.
  - intros w future m Hdone. unfold future_done in Hdone.
    destruct (w (task_request_id future)) as [post|] eqn:Hw; [|discriminate].
    exists (verification_result post). apply future_result_done, Hw.
  - intros w i info m e. unfold harvest_try, bind.
    unfold future_result.
    destruct (w (task_request_id (Active.future info))) as [post|].
    + rewrite _make_request_eq. cbn [fst].
      destruct (Active.callback info) as [|f]; discriminate.
    + discriminate.
  - intros m t w i result error does Hr.
    destruct (reachable_pass w m t Hr) as (taken & rest & _ & -> & _ & _).
    cbn [snd]. intros Hin.
    apply elem_of_cons in Hin as [Hin|Hin]; [discriminate|].
    apply elem_of_app in Hin as [Hin|Hin].
    + apply elem_of_app in Hin as [Hin|Hin].
      * exact (thread_start_harvest _ _ _ _ _ _ Hin).
      * destruct (thread_start_promote _ _ _ _ _ Hin).
    + apply list_elem_of_singleton in Hin. discriminate.
Qed.

(** C2, as the code has it.  When the verification call of an active
    request has failed (a timeout, a transport error, a status other than
    200), the pass that harvests it dispatches its callback once, with
    no result and with no error either: [(None, None)]. *)
Theorem failed_call_reports_no_error (m : AsyncRequestManager)
    (t : list event) (w : World) (request_id : string)
    (request_info : Active.info) (post : Exc Response)
    (f : Json → option string → Exc unit) :
  reachable m t →
  (request_id, request_info) ∈ active_requests m →
  w (task_request_id (Active.future request_info)) = Some post →
  call_failed post →
  Active.callback request_info = PyCallable f →
  dispatches request_id (process_completed_requests w m).2
  = [(JNone, None, f JNone None)].
Proof.
  intros Hr Hin Hw Hfailed Hcb.
  assert (is_done w (request_id, request_info)) as Hdone.
  { unfold is_done, future_done. simpl. rewrite Hw. exact I. }
  destruct (pass_dispatch w m t request_id request_info Hr Hin Hdone)
    as (before & after & -> & Hbefore & Hafter).
  rewrite !dispatches_app, Hbefore, Hafter, app_nil_r.
  rewrite dispatches_harvest_events, Hw, Hcb.
  assert (verification_result post = JNone) as ->; [|reflexivity].
  destruct post as [r|e]; [|reflexivity]. simpl in *.
  apply Z.eqb_neq in Hfailed. rewrite Hfailed. reflexivity.
Qed.

(** C3, as the code has it.  A [submit_request] call with a callable
    callback, made while the active set holds at least [max_concurrent]
    requests and the queue at least [PENDING_REQUESTS_LIMIT], calls the
    callback in place, once, with no result and the overload message,
    and leaves the active set and the queue as they were; it returns
    [None] when the callback returns, and lets the callback's exception
    through when it raises. *)
Theorem overload_rejection (m : AsyncRequestManager) (uuid4_hex : string)
    (image_data : bytes) (f : Json → option string → Exc unit) :
  max_concurrent m ≤ len (active_requests m) →
  PENDING_REQUESTS_LIMIT ≤ len (pending_requests m) →
  ∃ m',
    submit_request uuid4_hex image_data (PyCallable f) m
    = (match f JNone (Some "Queue full - system overloaded") with
       | Returns _ => Ok None
       | Raises e => Raise e
       end,
       m',
       [LockAcquire;
        CallbackCall (make_request_id (S (request_counter m)) uuid4_hex)
          JNone (Some "Queue full - system overloaded")
          (f JNone (Some "Queue full - system overloaded"));
        LockRelease])
    ∧ active_requests m' = active_requests m
    ∧ pending_requests m' = pending_requests m.
Proof.
  intros Ha Hq. rewrite submit_request_reject by assumption.
  eexists. split; [reflexivity|]. split; reflexivity.
Qed.

(** C8, as the code has it.  [submit_request] makes no network call of its
    own: its trace has no [requests.post].  It takes the ledger lock
    first and releases it last, so the lock is held for the whole call;
    the hand-over of the verification call to the executor, when there is
    one, happens while the lock is held.  The network call is made by
    [_make_request], on the worker: it posts, takes no lock and leaves
    the manager as it is. *)
Theorem submit_request_holds_lock (uuid4_hex : string) (image_data : bytes)
    (callback : Callback) (m : AsyncRequestManager) :
  (∀ request_id,
     ¬ (HttpPost request_id
          ∈ (submit_request uuid4_hex image_data callback m).2))
  ∧ (∃ body,
       (submit_request uuid4_hex image_data callback m).2
       = LockAcquire :: body ++ [LockRelease]
       ∧ ¬ (LockAcquire ∈ body) ∧ ¬ (LockRelease ∈ body))
  ∧ (∀ before after request_id,
       (submit_request uuid4_hex image_data callback m).2
       = before ++ ExecutorSubmit request_id :: after →
       held before = true)
  ∧ (∀ post request_id,
       ∃ v, _make_request post image_data request_id m
            = (Ok v, m, [HttpPost request_id])).
Proof.
  assert (∀ post request_id,
            ∃ v, _make_request post image_data request_id m
                 = (Ok v, m, [HttpPost request_id])) as Hworker.
  { intros post i. exists (verification_result post).
    apply _make_request_eq. }
  destruct (Z.lt_ge_cases (len (active_requests m)) (max_concurrent m))
    as [Ha|Ha].
  { rewrite submit_request_start by exact Ha. cbn [snd].
    split_and!; [|eexists [_; _]; split_and!; [reflexivity|..]| |exact Hworker].
    - intros i Hin. absent_from_trace Hin.
    - intros Hin. absent_from_trace Hin.
    - intros Hin. absent_from_trace Hin.
    - intros before after i Hsplit. split_trace before Hsplit. }
  destruct (Z.lt_ge_cases (len (pending_requests m)) PENDING_REQUESTS_LIMIT)
    as [Hq|Hq].
  { rewrite submit_request_queue by assumption. cbn [snd].
    split_and!; [|eexists [_]; split_and!; [reflexivity|..]| |exact Hworker].
    - intros i Hin. absent_from_trace Hin.
    - intros Hin. absent_from_trace Hin.
    - intros Hin. absent_from_trace Hin.
    - intros before after i Hsplit. split_trace before Hsplit. }
  rewrite submit_request_reject by assumption.
  destruct callback as [|f]; cbn [snd].
  - split_and!; [|exists []; split_and!; [reflexivity|..]| |exact Hworker].
    + intros i Hin. absent_from_trace Hin.
    + intros Hin. absent_from_trace Hin.
    + intros Hin. absent_from_trace Hin.
    + intros before after i Hsplit. split_trace before Hsplit.
  - split_and!; [|eexists [_]; split_and!; [reflexivity|..]| |exact Hworker].
    + intros i Hin. absent_from_trace Hin.
    + intros Hin. absent_from_trace Hin.
    + intros Hin. absent_from_trace Hin.
    + intros before after i Hsplit. split_trace before Hsplit.
Qed.

(** ** Examples *)

(** C2 fails as stated: a request is started, its verification call times
    out, and the pass that harvests it hands the callback [(None, None)]:
    no error description at all. *)
Lemma timeout_reported_without_error :
  let m := (run [Submit "0a0a0a0a" [] cb_returns] (fresh 3) []).1 in
  let w := only_done "req_1_0a0a0a0a" timed_out in
  let t' := (process_completed_requests w m).2 in
  active_ids m = ["req_1_0a0a0a0a"]
  ∧ dispatches "req_1_0a0a0a0a" t' = [(JNone, None, Returns tt)]
  ∧ ¬ (∃ result message does,
         (result, Some message, does) ∈ dispatches "req_1_0a0a0a0a" t').
Proof.
  cbv zeta. split_and!; [reflexivity|reflexivity|].
  intros (result & message & does & Hin).
  change (dispatches _ _) with [(JNone, @None string, Returns tt)] in Hin.
  apply list_elem_of_singleton in Hin. discriminate.
Qed.

(** C5 fails as stated: the verification call of the running request
    comes back with status 503; the pass pops the request and hands its
    callback [(None, None)], which is neither a result with no error nor
    no result with an error description. *)
Lemma harvest_without_result_or_error :
  let w := only_done "req_1_0a0a0a0a"
             (Returns {| status_code := 503;
                         json := Returns (JDict [("error",
                                                  JStr "unavailable")]) |}) in
  let t' := (process_completed_requests w saturated).2 in
  reachable saturated saturated_trace
  ∧ active_ids saturated = ["req_1_0a0a0a0a"]
  ∧ popped t' = ["req_1_0a0a0a0a"]
  ∧ dispatches "req_1_0a0a0a0a" t'
    = [(JNone, None, Raises (Exn RuntimeError "callback failed"))]
  ∧ ¬ (∃ result error does,
         (result, error, does) ∈ dispatches "req_1_0a0a0a0a" t'
         ∧ (result ≠ JNone ∨ error ≠ None)).
Proof.
  cbv zeta. split_and!; [|reflexivity|reflexivity|reflexivity|].
  - exists 1, (fresh 1), (firstn 6 (seven_submissions PyNone)).
    split; reflexivity.
  - intros (result & error & does & Hin & Hform).
    change (dispatches _ _)
      with [(JNone, @None string,
             @Raises unit (Exn RuntimeError "callback failed"))] in Hin.
    apply list_elem_of_singleton in Hin. injection Hin as -> -> _.
    destruct Hform as [H|H]; destruct H; reflexivity.
Qed.

(** C3 fails as stated: with the slot taken and the queue full, a
    submission whose callback raises does not return [None]; the
    exception of the callback comes out of [submit_request]. *)
Lemma rejection_with_raising_callback :
  max_concurrent saturated ≤ len (active_requests saturated)
  ∧ PENDING_REQUESTS_LIMIT ≤ len (pending_requests saturated)
  ∧ (submit_request "6a6a6a6a" [] cb_raises saturated).1.1
    = Raise (Exn RuntimeError "callback failed")
  ∧ (submit_request "6a6a6a6a" [] cb_raises saturated).1.1 ≠ Ok None.
Proof.
  split_and!.
  - apply Z.leb_le. reflexivity.
  - apply Z.leb_le. reflexivity.
  - reflexivity.
  - discriminate.
Qed.

(** C8 fails as stated: on a fresh manager the verification call is handed
    to the executor between the acquisition of the lock and its
    release. *)
Lemma dispatch_inside_lock :
  (submit_request "0a0a0a0a" [] cb_returns (fresh 3)).2
  = [LockAcquire; ExecutorSubmit "req_1_0a0a0a0a";
     ActiveInsert "req_1_0a0a0a0a"; LockRelease]
  ∧ ¬ dispatch_outside_lock
        (submit_request "0a0a0a0a" [] cb_returns (fresh 3)).2.
Proof.
  split; [reflexivity|]. intros Houtside.
  specialize (Houtside [LockAcquire]
                [ActiveInsert "req_1_0a0a0a0a"; LockRelease]
                "req_1_0a0a0a0a" eq_refl).
  discriminate.
Qed.

Lemma ledger_bounds_witness :
  len (active_requests (run two_passes (fresh 1) []).1) ≤ 1
  ∧ len (pending_requests (run two_passes (fresh 1) []).1)
    ≤ PENDING_REQUESTS_LIMIT.
Proof. apply (ledger_bounds 1 (fresh 1) two_passes). reflexivity. Defined.

Lemma fifo_promotion_witness :
  ∃ v1 v2,
    take 32 (run two_passes (fresh 1) []).2
    = v1 ++ PendingPopleft "req_2_1b1b1b1b"
         :: ExecutorSubmit "req_2_1b1b1b1b"
         :: ActiveInsert "req_2_1b1b1b1b" :: v2.
Proof.
  apply (fifo_promotion 1 (fresh 1) two_passes
           "req_2_1b1b1b1b" "req_3_2c2c2c2c"
           (take 5 (run two_passes (fresh 1) []).2)
           [LockRelease; LockAcquire]
           (drop 9 (run two_passes (fresh 1) []).2)
           (take 32 (run two_passes (fresh 1) []).2)
           (drop 33 (run two_passes (fresh 1) []).2)).
  - reflexivity.
  - vm_compute. reflexivity.
  - vm_compute. reflexivity.
Defined.

Lemma ids_exclusive_witness :
  NoDup (active_ids (run two_passes (fresh 1) []).1
           ++ pending_ids (run two_passes (fresh 1) []).1).
Proof.
  apply (ids_exclusive 1 (fresh 1) two_passes). reflexivity.
Defined.

Lemma harvest_pass_witness :
  ∃ m' t',
    process_completed_requests (only_done "req_1_0a0a0a0a" verified) saturated
    = (Ok tt, m', t')
    ∧ popped t' = ["req_1_0a0a0a0a"]
    ∧ dispatches "req_1_0a0a0a0a" t'
      = [(JDict [("openDoor", JBool true)], None,
          Raises (Exn RuntimeError "callback failed"))].
Proof.
  destruct (harvest_pass saturated saturated_trace
              (only_done "req_1_0a0a0a0a" verified))
    as (m' & t' & Hrun & Hpopped & _ & _ & Hdispatch & _).
  - exists 1, (fresh 1), (firstn 6 (seven_submissions PyNone)).
    split; reflexivity.
  - exists m', t'. split; [exact Hrun|].
    split; [rewrite Hpopped; reflexivity|].
    destruct (Hdispatch "req_1_0a0a0a0a"
                {| Active.future := {| task_image_data := [];
                                       task_request_id := "req_1_0a0a0a0a" |};
                   Active.callback := cb_raises |}
                (λ _ _, Raises (Exn RuntimeError "callback failed")))
      as (post & result & _ & _ & Hw & _ & Hfired & Hbody & _).
    + vm_compute. apply list_elem_of_here.
    + exact I.
    + reflexivity.
    + injection Hw as <-. rewrite Hfired.
      rewrite (Hbody _ (JDict [("openDoor", JBool true)])
                 eq_refl eq_refl eq_refl).
      reflexivity.
Defined.


Lemma missing_callback_asymmetry_witness :
  ∃ m',
    submit_request "6a6a6a6a" [] PyNone saturated
    = (Raise (Exn TypeError "'NoneType' object is not callable"),
       m', [LockAcquire; LockRelease]).
Proof.
  destruct (missing_callback_asymmetry saturated saturated_trace)
    as (_ & _ & Hreject).
  - exists 1, (fresh 1), (firstn 6 (seven_submissions PyNone)).
    split; reflexivity.
  - apply (Hreject "6a6a6a6a" []); apply Z.leb_le; reflexivity.
Defined.

Lemma failed_call_reports_no_error_witness :
  dispatches "req_1_0a0a0a0a"
    (process_completed_requests (only_done "req_1_0a0a0a0a" timed_out)
       saturated).2
  = [(JNone, None, Raises (Exn RuntimeError "callback failed"))].
Proof.
  apply (failed_call_reports_no_error saturated saturated_trace
           (only_done "req_1_0a0a0a0a" timed_out) "req_1_0a0a0a0a"
           {| Active.future := {| task_image_data := [];
                                  task_request_id := "req_1_0a0a0a0a" |};
              Active.callback := cb_raises |}
           timed_out
           (λ _ _, Raises (Exn RuntimeError "callback failed"))).
  - exists 1, (fresh 1), (firstn 6 (seven_submissions PyNone)).
    split; reflexivity.
  - vm_compute. apply list_elem_of_here.
  - reflexivity.
  - exact I.
  - reflexivity.
Defined.

Lemma overload_rejection_witness :
  ∃ m',
    submit_request "6a6a6a6a" [] cb_returns saturated
    = (Ok None, m',
       [LockAcquire;
        CallbackCall "req_7_6a6a6a6a" JNone
          (Some "Queue full - system overloaded") (Returns tt);
        LockRelease])
    ∧ active_requests m' = active_requests saturated
    ∧ pending_requests m' = pending_requests saturated.
Proof.
  apply (overload_rejection saturated "6a6a6a6a" [] (λ _ _, Returns tt));
    apply Z.leb_le; reflexivity.
Defined.

(** * Further properties of the manager *)

(** ** The steps of a reachable manager *)

Lemma reachable_fresh_id m t uuid4_hex :
  reachable m t →
  make_request_id (S (request_counter m)) uuid4_hex ∉ known_ids m t.
Proof.
  intros Hr. destruct (reachable_ids m t Hr) as [_ Hiss].
  apply fresh_not_in, Hiss.
Qed.

Lemma submit_step uuid4_hex image_data callback m t :
  reachable m t →
  let request_id := make_request_id (S (request_counter m)) uuid4_hex in
  (len (active_requests m) < max_concurrent m
   ∧ step (Submit uuid4_hex image_data callback) m
     = (with_active_requests
          (active_requests m ++
             [(request_id,
               {| Active.future := {| task_image_data := image_data;
                                      task_request_id := request_id |};
                  Active.callback := callback |})])
          (with_request_counter (S (request_counter m)) m),
        [LockAcquire; ExecutorSubmit request_id; ActiveInsert request_id;
         LockRelease]))
  ∨ (max_concurrent m ≤ len (active_requests m)
     ∧ len (pending_requests m) < PENDING_REQUESTS_LIMIT
     ∧ step (Submit uuid4_hex image_data callback) m
       = (with_pending_requests
            (pending_requests m ++
               [{| Queued.id := request_id; Queued.image_data := image_data;
                   Queued.callback := callback |}])
            (with_request_counter (S (request_counter m)) m),
          [LockAcquire; PendingAppend request_id; LockRelease]))
  ∨ (max_concurrent m ≤ len (active_requests m)
     ∧ PENDING_REQUESTS_LIMIT ≤ len (pending_requests m)
     ∧ step (Submit uuid4_hex image_data callback) m
       = (with_request_counter (S (request_counter m)) m,
          LockAcquire :: reject_events request_id callback ++ [LockRelease])).
Proof.
  intros Hr id.
  destruct (Z.lt_ge_cases (len (active_requests m)) (max_concurrent m))
    as [Ha|Ha].
  { left. split; [exact Ha|]. cbn [step].
    rewrite submit_request_start by exact Ha.
    rewrite dict_set_keys_fresh; [reflexivity|].
    intros Hin. apply (reachable_fresh_id m t uuid4_hex Hr).
    apply elem_of_app. left. exact Hin. }
  right.
  destruct (Z.lt_ge_cases (len (pending_requests m)) PENDING_REQUESTS_LIMIT)
    as [Hq|Hq].
  { left. split_and!; [exact Ha|exact Hq|]. cbn [step].
    rewrite submit_request_queue by assumption. reflexivity. }
  right. split_and!; [exact Ha|exact Hq|]. cbn [step].
  rewrite submit_request_reject by assumption.
  destruct callback as [|f]; reflexivity.
Qed.

Lemma process_step w m t :
  reachable m t →
  ∃ taken rest,
    pending_requests m = taken ++ rest
    ∧ step (Process w) m
      = (with_pending_requests rest
           (with_active_requests
              (running w m ++ ((λ q, (Queued.id q, start_queued q)) <$> taken))
              m),
         LockAcquire ::
           (flat_map (harvest_events w) (finished w m)
              ++ flat_map promote_events taken) ++ [LockRelease])
    ∧ (len (running w m) + len taken < max_concurrent m → rest = []).
Proof.
  intros Hr.
  destruct (reachable_pass w m t Hr)
    as (taken & rest & Hsplit & Hrun & Hexit & _).
  exists taken, rest. split_and!; [exact Hsplit| |exact Hexit].
  cbn [step]. rewrite Hrun. reflexivity.
Qed.

Lemma reachable_bounds m t :
  reachable m t →
  0 < max_concurrent m
  ∧ len (active_requests m) ≤ max_concurrent m
  ∧ len (pending_requests m) ≤ PENDING_REQUESTS_LIMIT.
Proof.
  intros Hr.
  enough (reachable m t
          ∧ 0 < max_concurrent m
          ∧ len (active_requests m) ≤ max_concurrent m
          ∧ len (pending_requests m) ≤ PENDING_REQUESTS_LIMIT)
    as (_ & H) by exact H.
  revert m t Hr. apply reachable_invariant.
  - intros mc m0 Hinit. split.
    + exists mc, m0, []. split; [exact Hinit|reflexivity].
    + apply init_returns in Hinit as [Hpos ->]. simpl.
      unfold len, PENDING_REQUESTS_LIMIT. simpl. lia.
  - intros o m t (Hr & Hpos & Ha & Hp).
    pose proof (reachable_transition o m t Hr) as Ht.
    split; [apply reachable_step, Hr|].
    rewrite (transition_max_concurrent _ _ _ _ Ht). split; [exact Hpos|].
    apply (transition_bounds _ _ _ _ Ht); assumption.
Qed.

(** ** Readings of the traces of the steps *)

Lemma inserted_app t t' : inserted (t ++ t') = inserted t ++ inserted t'.
Proof. apply omap_app. Qed.

Lemma submitted_app t t' : submitted (t ++ t') = submitted t ++ submitted t'.
Proof. apply omap_app. Qed.

Lemma inserted_locked body :
  inserted (LockAcquire :: body ++ [LockRelease]) = inserted body.
Proof.
  change (LockAcquire :: body ++ [LockRelease])
    with ([LockAcquire] ++ body ++ [LockRelease]).
  rewrite !inserted_app. apply app_nil_r.
Qed.

Lemma submitted_locked body :
  submitted (LockAcquire :: body ++ [LockRelease]) = submitted body.
Proof.
  change (LockAcquire :: body ++ [LockRelease])
    with ([LockAcquire] ++ body ++ [LockRelease]).
  rewrite !submitted_app. apply app_nil_r.
Qed.

Lemma inserted_harvest w l : inserted (flat_map (harvest_events w) l) = [].
Proof.
  induction l as [|[k info] l IH]; [reflexivity|].
  cbn [flat_map]. rewrite inserted_app, IH, app_nil_r.
  unfold harvest_events. simpl.
  destruct (w _); [destruct (Active.callback info)|]; reflexivity.
Qed.

Lemma submitted_harvest w l : submitted (flat_map (harvest_events w) l) = [].
Proof.
  induction l as [|[k info] l IH]; [reflexivity|].
  cbn [flat_map]. rewrite submitted_app, IH, app_nil_r.
  unfold harvest_events. simpl.
  destruct (w _); [destruct (Active.callback info)|]; reflexivity.
Qed.

Lemma inserted_promote taken :
  inserted (flat_map promote_events taken) = Queued.id <$> taken.
Proof.
  induction taken as [|x taken IH]; [reflexivity|].
  rewrite fmap_cons, <- IH. reflexivity.
Qed.

Lemma submitted_promote taken :
  submitted (flat_map promote_events taken) = Queued.id <$> taken.
Proof.
  induction taken as [|x taken IH]; [reflexivity|].
  rewrite fmap_cons, <- IH. reflexivity.
Qed.

Lemma inserted_reject i callback : inserted (reject_events i callback) = [].
Proof. destruct callback; reflexivity. Qed.

Lemma submitted_reject i callback : submitted (reject_events i callback) = [].
Proof. destruct callback; reflexivity. Qed.

Lemma popped_reject i callback : popped (reject_events i callback) = [].
Proof. destruct callback; reflexivity. Qed.

Lemma keys_promoted_entries (taken : list Queued.request) :
  keys ((λ q, (Queued.id q, start_queued q)) <$> taken) = Queued.id <$> taken.
Proof. unfold keys. rewrite <- list_fmap_compose. reflexivity. Qed.

(** ** The ledger invariant *)

Lemma dict_app_in {V} (d : dict V) k v k' v' :
  (k', v') ∈ d ++ [(k, v)] → (k', v') ∈ d ∨ (k' = k ∧ v' = v).
Proof.
  intros [Hin|Hin%list_elem_of_singleton]%elem_of_app; [left; exact Hin|].
  right. injection Hin as -> ->. split; reflexivity.
Qed.

Lemma issued_all_mono c c' (l : list string) :
  (c ≤ c')%nat → Forall (issued c) l → Forall (issued c') l.
Proof.
  intros Hle Hall. eapply Forall_impl; [exact Hall|].
  intros i. apply issued_mono, Hle.
Qed.

Lemma fresh_extends c uuid4_hex (l k : list string) :
  k ≡ₚ make_request_id (S c) uuid4_hex :: l →
  NoDup l → Forall (issued c) l →
  NoDup k ∧ Forall (issued (S c)) k.
Proof.
  intros Hperm Hnodup Hiss. rewrite Hperm. split.
  - apply NoDup_cons. split; [apply fresh_not_in, Hiss|exact Hnodup].
  - apply Forall_cons. split; [apply issued_next|].
    apply (issued_all_mono c); [lia|exact Hiss].
Qed.

Lemma step_ledger_inv o m t :
  reachable m t → ledger_inv m t →
  ledger_inv (step o m).1 (t ++ (step o m).2).
Proof.
  intros Hr (Hins & Hsub & Hnodup & Hiss & Hkey & Hidle).
  unfold ledger_inv, ever_ids, active_ids, pending_ids in *.
  rewrite inserted_app, submitted_app, popped_app.
  destruct o as [h img cb|w].
  - pose proof (fresh_not_in _ h _ Hiss) as Hfresh.
    destruct (submit_step h img cb m t Hr)
      as [[Ha ->]|[(Ha & Hq & ->)|(Ha & Hq & ->)]];
      cbn [fst snd active_requests pending_requests max_concurrent
             request_counter with_active_requests with_pending_requests
             with_request_counter].
    + change (inserted [_; _; _; _])
        with [make_request_id (S (request_counter m)) h].
      change (submitted [_; _; _; _])
        with [make_request_id (S (request_counter m)) h].
      change (popped [_; _; _; _]) with (@nil string).
      unfold keys in *. rewrite fmap_app, app_nil_r. cbn [fmap list_fmap fst].
      split_and!.
      * rewrite Hins. solve_Permutation.
      * rewrite Hsub. reflexivity.
      * eapply fresh_extends; [|exact Hnodup|exact Hiss]. solve_Permutation.
      * eapply fresh_extends; [|exact Hnodup|exact Hiss]. solve_Permutation.
      * intros k info [Hin|[-> ->]]%dict_app_in; [exact (Hkey k info Hin)|].
        reflexivity.
      * intros Hlt. apply Hidle, Ha.
    + change (inserted [_; _; _]) with (@nil string).
      change (submitted [_; _; _]) with (@nil string).
      change (popped [_; _; _]) with (@nil string).
      rewrite !app_nil_r, fmap_app. cbn [fmap list_fmap Queued.id].
      split_and!.
      * exact Hins.
      * exact Hsub.
      * eapply fresh_extends; [|exact Hnodup|exact Hiss]. solve_Permutation.
      * eapply fresh_extends; [|exact Hnodup|exact Hiss]. solve_Permutation.
      * exact Hkey.
      * intros Hlt. lia.
    + rewrite inserted_locked, submitted_locked, popped_locked,
        inserted_reject, submitted_reject, popped_reject, !app_nil_r.
      split_and!; [exact Hins|exact Hsub|exact Hnodup| |exact Hkey|exact Hidle].
      apply (issued_all_mono (request_counter m)); [lia|exact Hiss].
  - destruct (process_step w m t Hr) as (taken & rest & Hsplit & -> & Hexit).
    cbn [fst snd active_requests pending_requests max_concurrent
           request_counter with_active_requests with_pending_requests].
    rewrite inserted_locked, submitted_locked, popped_locked,
      inserted_app, submitted_app, popped_app,
      inserted_harvest, submitted_harvest, popped_harvest,
      inserted_promote, submitted_promote, popped_promote, app_nil_r.
    cbn [app].
    pose proof (keys_partition w m) as Hpart.
    assert ((keys (running w m
                   ++ ((λ q, (Queued.id q, start_queued q)) <$> taken)))
            = keys (running w m) ++ (Queued.id <$> taken)) as Hkeys.
    { unfold keys at 1. rewrite fmap_app.
      fold (keys (running w m)).
      fold (keys ((λ q, (Queued.id q, start_queued q)) <$> taken)).
      rewrite keys_promoted_entries. reflexivity. }
    rewrite Hkeys.
    assert ((keys (running w m) ++ (Queued.id <$> taken))
              ++ (Queued.id <$> rest) ++ popped t ++ keys (finished w m)
            ≡ₚ keys (active_requests m)
                 ++ (Queued.id <$> pending_requests m) ++ popped t) as Hperm.
    { rewrite <- Hpart, Hsplit, fmap_app. solve_Permutation. }
    split_and!.
    + rewrite Hins, <- Hpart. solve_Permutation.
    + rewrite Hsub. reflexivity.
    + rewrite Hperm. exact Hnodup.
    + rewrite Hperm. exact Hiss.
    + intros k info [Hin|Hin]%elem_of_app.
      * apply running_in in Hin as [Hin _]. exact (Hkey k info Hin).
      * apply list_elem_of_fmap in Hin as (q & [= -> ->] & _). reflexivity.
    + unfold len in *. rewrite length_app, length_fmap. intros Hlt.
      apply Hexit. lia.
Qed.

Lemma reachable_ledger m t : reachable m t → ledger_inv m t.
Proof.
  intros Hr.
  enough (reachable m t ∧ ledger_inv m t) as [_ H] by exact H.
  revert m t Hr. apply reachable_invariant.
  - intros mc m0 Hinit. split.
    + exists mc, m0, []. split; [exact Hinit|reflexivity].
    + apply init_returns in Hinit as [_ ->].
      split_and!;
        [reflexivity|reflexivity|apply NoDup_nil_2|constructor| |reflexivity].
      intros k info []%elem_of_nil.
  - intros o m t [Hr Hinv]. split; [apply reachable_step, Hr|].
    apply step_ledger_inv; assumption.
Qed.

(** ** What the ledger invariant gives *)

Lemma filter_none {A} (P : A → Prop) `{∀ x, Decision (P x)} (l : list A) :
  (∀ x, x ∈ l → ¬ P x) → filter P l = [].
Proof.
  induction l as [|x l IH]; intros Hnone; [reflexivity|].
  rewrite filter_cons, decide_False by (apply Hnone, list_elem_of_here).
  apply IH. intros y Hy. apply Hnone, list_elem_of_further, Hy.
Qed.

Lemma filter_all {A} (P : A → Prop) `{∀ x, Decision (P x)} (l : list A) :
  (∀ x, x ∈ l → P x) → filter P l = l.
Proof.
  induction l as [|x l IH]; intros Hall; [reflexivity|].
  rewrite filter_cons, decide_True by (apply Hall, list_elem_of_here).
  f_equal. apply IH. intros y Hy. apply Hall, list_elem_of_further, Hy.
Qed.

Lemma with_ledger_id m :
  with_pending_requests (pending_requests m)
    (with_active_requests (active_requests m) m) = m.
Proof. destruct m; reflexivity. Qed.

(** How many requests a pass promotes: as many as there are free slots
    once the finished requests have left, or all of the queue if it is
    shorter. *)
Lemma reachable_pass_count w m t :
  reachable m t →
  ∃ taken rest,
    pending_requests m = taken ++ rest
    ∧ process_completed_requests w m
      = (Ok tt,
         with_pending_requests rest
           (with_active_requests
              (running w m ++ ((λ q, (Queued.id q, start_queued q)) <$> taken))
              m),
         LockAcquire ::
           (flat_map (harvest_events w) (finished w m)
              ++ flat_map promote_events taken) ++ [LockRelease])
    ∧ len taken
      = Z.min (max_concurrent m - len (running w m))
              (len (pending_requests m)).
Proof.
  intros Hr.
  destruct (reachable_pass w m t Hr)
    as (taken & rest & Hsplit & Hpass & Hexit & _).
  exists taken, rest. split_and!; [exact Hsplit|exact Hpass|].
  pose proof (reachable_bounds _ _ (reachable_step (Process w) m t Hr))
    as (_ & Ha & _).
  cbn [step] in Ha. rewrite Hpass in Ha.
  cbn [fst active_requests max_concurrent with_active_requests
         with_pending_requests] in Ha.
  unfold len in *. rewrite length_app, length_fmap in Ha.
  rewrite Hsplit, length_app.
  destruct (Z.lt_ge_cases
              (Z.of_nat (length (running w m)) + Z.of_nat (length taken))
              (max_concurrent m)) as [Hlt|Hge].
  - rewrite (Hexit Hlt). simpl. lia.
  - lia.
Qed.

(** X1.  A request waits in the queue only while the active set is full:
    in every reachable manager with a non-empty pending queue, the active
    set holds exactly [max_concurrent] requests. *)
Theorem queue_only_when_full (m : AsyncRequestManager) (t : list event) :
  reachable m t →
  pending_requests m ≠ [] →
  len (active_requests m) = max_concurrent m.
Proof.
  intros Hr Hq.
  destruct (reachable_ledger m t Hr) as (_ & _ & _ & _ & _ & Hidle).
  destruct (reachable_bounds m t Hr) as (_ & Ha & _).
  destruct (Z.lt_ge_cases (len (active_requests m)) (max_concurrent m))
    as [Hlt|Hge]; [destruct (Hq (Hidle Hlt))|lia].
Qed.

(** X2.  A pass with nothing to do does nothing: on a reachable manager
    none of whose active futures is done, [process_completed_requests]
    returns with the manager as it was, having only taken and released
    the lock. *)
Theorem idle_pass_changes_nothing (m : AsyncRequestManager)
    (t : list event) (w : World) :
  reachable m t →
  (∀ item, item ∈ active_requests m → ¬ is_done w item) →
  process_completed_requests w m = (Ok tt, m, [LockAcquire; LockRelease]).
Proof.
  intros Hr Hnone.
  assert (finished w m = []) as Hfin by (apply filter_none, Hnone).
  assert (running w m = active_requests m) as Hrun
    by (apply filter_all, Hnone).
  destruct (reachable_pass_count w m t Hr)
    as (taken & rest & Hsplit & Hpass & Hcount).
  assert (taken = []) as ->.
  { rewrite Hrun in Hcount.
    destruct (reachable_ledger m t Hr) as (_ & _ & _ & _ & _ & Hidle).
    destruct (reachable_bounds m t Hr) as (_ & Ha & _).
    destruct (Z.lt_ge_cases (len (active_requests m)) (max_concurrent m))
      as [Hlt|Hge].
    - rewrite (Hidle Hlt) in Hsplit. symmetry in Hsplit.
      apply app_eq_nil in Hsplit as [-> _]. reflexivity.
    - destruct taken; [reflexivity|]. unfold len in *. simpl in Hcount. lia. }
  rewrite Hpass, Hfin, Hrun. cbn [app fmap list_fmap flat_map].
  rewrite app_nil_r. simpl in Hsplit. rewrite <- Hsplit, with_ledger_id.
  reflexivity.
Qed.

(** X3.  No callback is fired twice: in the trace of a reachable manager
    the ids for which a callback was called, in place on rejection or on
    a thread at harvest, are pairwise distinct. *)
Theorem callbacks_fire_once (m : AsyncRequestManager) (t : list event) :
  reachable m t → NoDup (fired t).
Proof.
  intros Hr. destruct (reachable_ids m t Hr) as [Hnodup _].
  eapply NoDup_submseteq_inv; [|exact Hnodup].
  unfold known_ids. solve_submseteq.
Qed.

(** X4.  The verification call of a request is handed to the executor
    once and only once: the ids passed to [executor.submit] are exactly
    the ids entered in [active_requests], in the same order, and no id
    occurs twice among them. *)
Theorem verification_dispatched_once (m : AsyncRequestManager)
    (t : list event) :
  reachable m t → submitted t = inserted t ∧ NoDup (submitted t).
Proof.
  intros Hr.
  destruct (reachable_ledger m t Hr) as (Hins & Hsub & Hnodup & _).
  split; [exact Hsub|]. rewrite Hsub, Hins.
  eapply NoDup_submseteq_inv; [|exact Hnodup].
  unfold ever_ids. solve_submseteq.
Qed.

(** X5.  No accepted request is lost or duplicated: along every
    execution, the ids entered in the active set are, up to order, those
    still active and those popped by a harvest, and the ids appended to
    the queue are those promoted followed by those still waiting. *)
Theorem no_request_lost (m : AsyncRequestManager) (t : list event) :
  reachable m t →
  inserted t ≡ₚ active_ids m ++ popped t
  ∧ appended t = promoted t ++ pending_ids m.
Proof.
  intros Hr.
  destruct (reachable_ledger m t Hr) as (Hins & _).
  destruct (reachable_fifo m t Hr) as (Hfifo & _).
  split; assumption.
Qed.

(** X6.  The id [submit_request] returns is new: it is the id built from
    the incremented counter, and it was never entered in the active set,
    never appended to the queue and never the id of a fired callback
    before. *)
Theorem returned_id_is_new (m : AsyncRequestManager) (t : list event)
    (uuid4_hex : string) (image_data : bytes) (callback : Callback)
    (request_id : string) :
  reachable m t →
  (submit_request uuid4_hex image_data callback m).1.1
  = Ok (Some request_id) →
  request_id = make_request_id (S (request_counter m)) uuid4_hex
  ∧ ¬ (request_id ∈ inserted t)
  ∧ ¬ (request_id ∈ appended t)
  ∧ ¬ (request_id ∈ fired t).
Proof.
  intros Hr Hout.
  assert (request_id = make_request_id (S (request_counter m)) uuid4_hex)
    as ->.
  { destruct (Z.lt_ge_cases (len (active_requests m)) (max_concurrent m))
      as [Ha|Ha].
    { rewrite submit_request_start in Hout by exact Ha.
      injection Hout as <-. reflexivity. }
    destruct (Z.lt_ge_cases (len (pending_requests m))
                PENDING_REQUESTS_LIMIT) as [Hq|Hq].
    { rewrite submit_request_queue in Hout by assumption.
      injection Hout as <-. reflexivity. }
    rewrite submit_request_reject in Hout by assumption.
    destruct callback as [|f]; [discriminate|]. cbn [fst] in Hout.
    destruct (f JNone (Some overloaded)); discriminate. }
  split; [reflexivity|].
  destruct (reachable_ledger m t Hr) as (Hins & _ & _ & Hever & _).
  destruct (reachable_fifo m t Hr) as (_ & _ & Happ).
  destruct (reachable_ids m t Hr) as (_ & Hknown).
  split_and!.
  - rewrite Hins. intros Hin.
    apply (fresh_not_in _ uuid4_hex _ Hever). unfold ever_ids.
    apply elem_of_app in Hin as [Hin|Hin]; apply elem_of_app;
      [left; exact Hin|right; apply elem_of_app; right; exact Hin].
  - apply fresh_not_in, Happ.
  - intros Hin. apply (fresh_not_in _ uuid4_hex _ Hknown). unfold known_ids.
    apply elem_of_app. right. apply elem_of_app. right. exact Hin.
Qed.

Lemma step_counter o m t :
  reachable m t →
  request_counter (step o m).1
  = (request_counter m + if is_submit o then 1 else 0)%nat.
Proof.
  intros Hr. destruct o as [h img cb|w].
  - destruct (submit_step h img cb m t Hr)
      as [[_ ->]|[(_ & _ & ->)|(_ & _ & ->)]]; simpl; lia.
  - destruct (process_step w m t Hr) as (taken & rest & _ & -> & _).
    simpl. lia.
Qed.

(** X7.  The request counter counts the [submit_request] calls, those
    turned away included: after any sequence of calls on a fresh manager
    it equals the number of submissions made. *)
Theorem counter_counts_submissions (mc : Z) (m0 : AsyncRequestManager)
    (ops : list op) :
  __init__ mc = Returns m0 →
  request_counter (run ops m0 []).1 = count_submits ops.
Proof.
  intros Hinit.
  assert (reachable m0 []) as Hr0
    by (exists mc, m0, []; split; [exact Hinit|reflexivity]).
  assert (request_counter m0 = 0%nat) as Hc0
    by (apply init_returns in Hinit as [_ ->]; reflexivity).
  enough (∀ ops m t, reachable m t →
            request_counter (run ops m t).1
            = (request_counter m + count_submits ops)%nat) as Hgen
    by (rewrite (Hgen ops m0 [] Hr0), Hc0; reflexivity).
  clear. induction ops as [|o ops IH]; intros m t Hr.
  - simpl. unfold count_submits. simpl. lia.
  - cbn [run]. pose proof (reachable_step o m t Hr) as Hr'.
    pose proof (step_counter o m t Hr) as Hc.
    destruct (step o m) as [m' t']. cbn [fst snd] in *.
    rewrite (IH m' (t ++ t') Hr'), Hc. unfold count_submits.
    rewrite filter_cons. destruct (is_submit o); simpl; lia.
Qed.

(** X8.  [get_status] is a read-only snapshot, consistent with the bounds:
    on a reachable manager it returns the sizes of the active set and of
    the queue with [max_concurrent], leaves the manager as it is, and
    the sizes it reports satisfy [0 <= active <= max_concurrent],
    [0 <= pending <= PENDING_REQUESTS_LIMIT], and [active =
    max_concurrent] whenever [pending > 0]. *)
Theorem get_status_snapshot (m : AsyncRequestManager) (t : list event) :
  reachable m t →
  ∃ active pending,
    get_status m
    = (Ok (active, pending, max_concurrent m), m, [LockAcquire; LockRelease])
    ∧ active = len (active_requests m)
    ∧ pending = len (pending_requests m)
    ∧ 0 ≤ active ≤ max_concurrent m
    ∧ 0 ≤ pending ≤ PENDING_REQUESTS_LIMIT
    ∧ (0 < pending → active = max_concurrent m).
Proof.
  intros Hr. exists (len (active_requests m)), (len (pending_requests m)).
  destruct (reachable_bounds m t Hr) as (_ & Ha & Hp).
  destruct (reachable_ledger m t Hr) as (_ & _ & _ & _ & _ & Hidle).
  split_and!; try reflexivity; try (unfold len; lia); try assumption.
  intros Hpos.
  destruct (Z.lt_ge_cases (len (active_requests m)) (max_concurrent m))
    as [Hlt|Hge]; [|lia].
  rewrite (Hidle Hlt) in Hpos. unfold len in Hpos. simpl in Hpos. lia.
Qed.

(** X9.  An accepted submission adds exactly one request to the ledger,
    at its place, and a refused one none: on a reachable manager, when
    [submit_request] returns an id, either there was a free slot and the
    active set is the old one followed by the new entry (the future of
    this payload and id, and the callback) with the queue untouched, or
    the active set was full, the queue had room, and the queue is the
    old one followed by the new request with the active set untouched;
    when it returns no id (it returns [None] or raises), the active set
    was full and the queue too, and both are as they were.  In every
    case [max_concurrent] stays and the counter moves by one. *)
Theorem submit_adds_one_or_none (m : AsyncRequestManager) (t : list event)
    (uuid4_hex : string) (image_data : bytes) (callback : Callback) :
  reachable m t →
  let out := (submit_request uuid4_hex image_data callback m).1.1 in
  let m' := (submit_request uuid4_hex image_data callback m).1.2 in
  max_concurrent m' = max_concurrent m
  ∧ request_counter m' = S (request_counter m)
  ∧ (∀ request_id,
       out = Ok (Some request_id) →
       (len (active_requests m) < max_concurrent m
        ∧ active_requests m'
          = active_requests m
              ++ [(request_id,
                   {| Active.future :=
                        {| task_image_data := image_data;
                           task_request_id := request_id |};
                      Active.callback := callback |})]
        ∧ pending_requests m' = pending_requests m)
       ∨ (max_concurrent m ≤ len (active_requests m)
          ∧ len (pending_requests m) < PENDING_REQUESTS_LIMIT
          ∧ active_requests m' = active_requests m
          ∧ pending_requests m'
            = pending_requests m
                ++ [{| Queued.id := request_id;
                       Queued.image_data := image_data;
                       Queued.callback := callback |}]))
  ∧ ((∀ request_id, out ≠ Ok (Some request_id)) →
     max_concurrent m ≤ len (active_requests m)
     ∧ PENDING_REQUESTS_LIMIT ≤ len (pending_requests m)
     ∧ active_requests m' = active_requests m
     ∧ pending_requests m' = pending_requests m).
Proof.
  intros Hr. cbv zeta.
  pose proof (reachable_fresh_id m t uuid4_hex Hr) as Hfresh.
  destruct (Z.lt_ge_cases (len (active_requests m)) (max_concurrent m))
    as [Ha|Ha].
  { rewrite submit_request_start by exact Ha. simpl.
    split_and!; [reflexivity|reflexivity| |].
    - intros request_id [= <-]. left. split_and!; [exact Ha| |reflexivity].
      apply dict_set_keys_fresh.
      intros Hin. apply Hfresh, elem_of_app. left. exact Hin.
    - intros Hnone. destruct (Hnone _ eq_refl). }
  destruct (Z.lt_ge_cases (len (pending_requests m)) PENDING_REQUESTS_LIMIT)
    as [Hq|Hq].
  { rewrite submit_request_queue by assumption. simpl.
    split_and!; [reflexivity|reflexivity| |].
    - intros request_id [= <-]. right.
      split_and!; [exact Ha|exact Hq|reflexivity|reflexivity].
    - intros Hnone. destruct (Hnone _ eq_refl). }
  rewrite submit_request_reject by assumption.
  destruct callback as [|f]; simpl.
  - split_and!; [reflexivity|reflexivity|intros ? [=]|].
    intros _. split_and!; [exact Ha|exact Hq|reflexivity|reflexivity].
  - split_and!; [reflexivity|reflexivity| |].
    + destruct (f JNone (Some overloaded)); intros ? [=].
    + intros _. split_and!; [exact Ha|exact Hq|reflexivity|reflexivity].
Qed.

(** X10.  What a pass does to the ledger: the entries whose future is not
    done stay, in their order; after them come the first [n] requests of
    the queue, in their order, each with a future for its own payload
    and id and with its own callback, where [n] is the number of free
    slots, or the length of the queue if that is less; the rest of the
    queue stays. *)
Theorem pass_fills_free_slots (m : AsyncRequestManager) (t : list event)
    (w : World) :
  reachable m t →
  let still := filter (λ item, ¬ is_done w item) (active_requests m) in
  let n := Z.to_nat (Z.min (max_concurrent m - len still)
                           (len (pending_requests m))) in
  ∃ m' t',
    process_completed_requests w m = (Ok tt, m', t')
    ∧ active_requests m'
      = still
          ++ ((λ q, (Queued.id q,
                     {| Active.future :=
                          {| task_image_data := Queued.image_data q;
                             task_request_id := Queued.id q |};
                        Active.callback := Queued.callback q |}))
                <$> take n (pending_requests m))
    ∧ pending_requests m' = drop n (pending_requests m)
    ∧ promoted t' = Queued.id <$> take n (pending_requests m)
    ∧ max_concurrent m' = max_concurrent m
    ∧ request_counter m' = request_counter m.
Proof.
  intros Hr still n.
  destruct (reachable_pass_count w m t Hr)
    as (taken & rest & Hsplit & Hpass & Hcount).
  fold (running w m) in still. subst still.
  assert (n = length taken) as Hn.
  { subst n. rewrite <- Hcount. unfold len. lia. }
  eexists _, _. split; [exact Hpass|].
  cbn [active_requests pending_requests max_concurrent request_counter
         with_active_requests with_pending_requests].
  rewrite Hsplit, Hn, take_app_length, drop_app_length.
  split_and!; try reflexivity.
  rewrite promoted_locked, promoted_app, promoted_harvest, promoted_promote.
  reflexivity.
Qed.

(** X11.  The future kept under a request id is the verification call of
    that request: in every reachable manager, each entry of
    [active_requests] holds a future whose task was submitted with the
    id that is the key of the entry. *)
Theorem future_of_its_key (m : AsyncRequestManager) (t : list event)
    (request_id : string) (request_info : Active.info) :
  reachable m t →
  (request_id, request_info) ∈ active_requests m →
  task_request_id (Active.future request_info) = request_id.
Proof.
  intros Hr Hin.
  destruct (reachable_ledger m t Hr) as (_ & _ & _ & _ & Hkey & _).
  exact (Hkey _ _ Hin).
Qed.

(** X12.  A successful verification reaches the callback unchanged: when
    the call of an active request has returned status 200 and a body that
    parses, the pass that harvests it dispatches its callback once, with
    the parsed body for result and [None] for error. *)
Theorem verified_result_delivered (m : AsyncRequestManager)
    (t : list event) (w : World) (request_id : string)
    (request_info : Active.info) (response : Response) (body : Json)
    (f : Json → option string → Exc unit) :
  reachable m t →
  (request_id, request_info) ∈ active_requests m →
  w request_id = Some (Returns response) →
  status_code response = 200 →
  json response = Returns body →
  Active.callback request_info = PyCallable f →
  dispatches request_id (process_completed_requests w m).2
  = [(body, None, f body None)].
Proof.
  intros Hr Hin Hw Hstatus Hjson Hcb.
  destruct (reachable_ledger m t Hr) as (_ & _ & _ & _ & Hkey & _).
  rewrite <- (Hkey _ _ Hin) in Hw.
  assert (is_done w (request_id, request_info)) as Hdone.
  { unfold is_done, future_done. simpl. rewrite Hw. exact I. }
  destruct (pass_dispatch w m t request_id request_info Hr Hin Hdone)
    as (before & after & -> & Hbefore & Hafter).
  rewrite !dispatches_app, Hbefore, Hafter, app_nil_r.
  rewrite dispatches_harvest_events, Hw, Hcb.
  unfold verification_result. rewrite Hstatus, Hjson. reflexivity.
Qed.

(** * The verdict of the door *)

Lemma py_eq_str_true v s : py_eq_str v s = true ↔ v = JStr s.
Proof.
  destruct v; simpl; try (split; [discriminate|intros [=]]).
  split.
  - intros ->%String.eqb_eq. reflexivity.
  - intros [= ->]. apply String.eqb_refl.
Qed.

Lemma verification_try_dict d :
  verification_try (JDict d)
  = if py_truth (dict_get "openDoor" (JBool false) d)
       && py_eq_str (dict_get "access" (JStr "denied") d) "granted"
    then inr [Spawned (ControlDoor true);
              Spawned (IndicateGranted (dict_get "user" (JStr "Unknown") d))]
    else inr [Spawned (IndicateDenied
                         (dict_get "reason" (JStr "Unknown error") d))].
Proof. reflexivity. Qed.

Lemma verification_try_other result :
  (∀ d, result ≠ JDict d) → ∃ e, verification_try result = inl e.
Proof.
  intros Hnot. destruct result; try (eexists; reflexivity).
  destruct (Hnot _ eq_refl).
Qed.

(** X13.  The callback opens the door in one case only: it starts
    [control_door(True)] exactly when the error is empty or [None], the
    result is a dict whose ['openDoor'] is true in Python's sense and
    whose ['access'] is the string ['granted']; it then also announces
    the user, and never a denial. *)
Theorem door_opens_only_when_granted (result : Json)
    (error : option string) :
  (Spawned (ControlDoor true) ∈ verification_callback result error
   ↔ error_truth error = false
     ∧ ∃ d, result = JDict d
            ∧ py_truth (dict_get "openDoor" (JBool false) d) = true
            ∧ dict_get "access" (JStr "denied") d = JStr "granted")
  ∧ (Spawned (ControlDoor true) ∈ verification_callback result error →
     ∃ d, result = JDict d
          ∧ verification_callback result error
            = [Spawned (ControlDoor true);
               Spawned (IndicateGranted
                          (dict_get "user" (JStr "Unknown") d))]).
Proof.
  assert (∀ l : list door_event,
            (∃ r, l = [Called (IndicateDenied r)]
                  ∨ l = [Spawned (IndicateDenied r)]) →
            ¬ (Spawned (ControlDoor true) ∈ l)) as Hdenied.
  { intros l (r & [-> | ->]) [=]%list_elem_of_singleton. }
  unfold verification_callback.
  destruct (error_truth error) eqn:Herr.
  { split; [split|]; [intros Hin|intros [[=] _]|intros Hin];
      destruct (Hdenied _ ltac:(eexists; left; reflexivity) Hin). }
  destruct (py_truth result) eqn:Htruth; cbn [negb].
  2:{ split; [split|]; [intros Hin| |intros Hin];
        try destruct (Hdenied _ ltac:(eexists; left; reflexivity) Hin).
      intros (_ & d & -> & Hopen & _). destruct d as [|? ?]; [|discriminate].
      discriminate Hopen. }
  destruct result as [|b|n|mantissa exponent|s|l|d];
    try (split; [split|]; [intros Hin|intros (_ & d & [=] & _)|intros Hin];
         destruct (Hdenied _ ltac:(eexists; right; reflexivity) Hin)).
  rewrite verification_try_dict.
  destruct (py_truth (dict_get "openDoor" (JBool false) d)) eqn:Hopen;
    cbn [andb].
  2:{ split; [split|]; [intros Hin| |intros Hin];
        try destruct (Hdenied _ ltac:(eexists; right; reflexivity) Hin).
      intros (_ & d' & [= <-] & Hopen' & _). congruence. }
  destruct (py_eq_str (dict_get "access" (JStr "denied") d) "granted")
    eqn:Haccess.
  - apply py_eq_str_true in Haccess. split; [split|].
    + intros _. split; [reflexivity|]. exists d. split_and!; done.
    + intros _. apply list_elem_of_here.
    + intros _. exists d. split; reflexivity.
  - split; [split|]; [intros Hin| |intros Hin];
      try destruct (Hdenied _ ltac:(eexists; right; reflexivity) Hin).
    intros (_ & d' & [= <-] & _ & Haccess').
    apply py_eq_str_true in Haccess'. congruence.
Qed.

(** Where a dispatch of a pass comes from. *)
Lemma thread_start_origin w l request_id result error does :
  ThreadStart request_id result error does
    ∈ flat_map (harvest_events w) l →
  ∃ request_info post,
    (request_id, request_info) ∈ l
    ∧ w (task_request_id (Active.future request_info)) = Some post
    ∧ result = verification_result post
    ∧ error = None.
Proof.
  induction l as [|[k info] l IH]; cbn [flat_map].
  - intros []%elem_of_nil.
  - intros [Hin|Hin]%elem_of_app.
    + unfold harvest_events in Hin. simpl in Hin.
      apply elem_of_cons in Hin as [Hin|Hin]; [discriminate|].
      destruct (w (task_request_id (Active.future info))) as [post|] eqn:Hw;
        [destruct (Active.callback info)|];
        try (apply elem_of_nil in Hin; destruct Hin).
      apply list_elem_of_singleton in Hin. injection Hin as -> -> -> _.
      exists info, post. split_and!; try reflexivity; [|exact Hw].
      apply list_elem_of_here.
    + destruct (IH Hin) as (info' & post & Hl & Hw & Hres & Herr).
      exists info', post. split_and!; try assumption.
      apply list_elem_of_further, Hl.
Qed.

Lemma pass_thread_start w m t request_id result error does :
  reachable m t →
  ThreadStart request_id result error does
    ∈ (process_completed_requests w m).2 →
  ∃ request_info post,
    (request_id, request_info) ∈ active_requests m
    ∧ w request_id = Some post
    ∧ result = verification_result post
    ∧ error = None.
Proof.
  intros Hr Hin.
  destruct (reachable_pass w m t Hr) as (taken & rest & _ & Hpass & _ & _).
  rewrite Hpass in Hin. cbn [snd] in Hin.
  apply elem_of_cons in Hin as [Hin|Hin]; [discriminate|].
  apply elem_of_app in Hin as [Hin|Hin%list_elem_of_singleton];
    [|discriminate].
  apply elem_of_app in Hin as [Hin|Hin];
    [|destruct (thread_start_promote _ _ _ _ _ Hin)].
  destruct (thread_start_origin _ _ _ _ _ _ Hin)
    as (info & post & Hfin & Hw & Hres & Herr).
  apply finished_in in Hfin as [Hact _].
  destruct (reachable_ledger m t Hr) as (_ & _ & _ & _ & Hkey & _).
  rewrite (Hkey _ _ Hact) in Hw.
  exists info, post. split_and!; assumption.
Qed.

Lemma verification_result_dict post d :
  verification_result post = JDict d →
  ∃ response,
    post = Returns response ∧ status_code response = 200
    ∧ json response = Returns (JDict d).
Proof.
  unfold verification_result. destruct post as [response|e]; [|discriminate].
  destruct (Z.eqb_spec (status_code response) 200) as [Hs|_]; [|discriminate].
  destruct (json response) as [body|e] eqn:Hj; [|discriminate].
  intros ->. exists response. split_and!; [reflexivity|exact Hs|exact Hj].
Qed.

(** X14.  From a dispatch of the reconciler, the door opens only for a
    verification that succeeded and granted access: if a pass on a
    reachable manager dispatches a callback with arguments for which
    [verification_callback] opens the door, then the request was active,
    its verification call returned status 200, and the parsed body is a
    dict with a true ['openDoor'] and ['access'] equal to ['granted']. *)
Theorem door_opens_only_after_granting_response (m : AsyncRequestManager)
    (t : list event) (w : World) (request_id : string) (result : Json)
    (error : option string) (does : Exc unit) :
  reachable m t →
  ThreadStart request_id result error does
    ∈ (process_completed_requests w m).2 →
  Spawned (ControlDoor true) ∈ verification_callback result error →
  ∃ request_info response d,
    (request_id, request_info) ∈ active_requests m
    ∧ w request_id = Some (Returns response)
    ∧ status_code response = 200
    ∧ json response = Returns (JDict d)
    ∧ py_truth (dict_get "openDoor" (JBool false) d) = true
    ∧ dict_get "access" (JStr "denied") d = JStr "granted".
Proof.
  intros Hr Hin Hopen.
  destruct (pass_thread_start w m t _ _ _ _ Hr Hin)
    as (info & post & Hact & Hw & -> & ->).
  unfold verification_callback in Hopen. cbn [error_truth] in Hopen.
  destruct (py_truth (verification_result post)) eqn:Htruth; cbn [negb] in Hopen;
    [|apply list_elem_of_singleton in Hopen; discriminate].
  destruct (verification_result post) as [|b|n|mantissa exponent|s|l|d]
    eqn:Hres;
    try (apply list_elem_of_singleton in Hopen; discriminate).
  rewrite verification_try_dict in Hopen.
  destruct (py_truth (dict_get "openDoor" (JBool false) d)) eqn:Hdoor;
    cbn [andb] in Hopen;
    [|apply list_elem_of_singleton in Hopen; discriminate].
  destruct (py_eq_str (dict_get "access" (JStr "denied") d) "granted")
    eqn:Haccess;
    [|apply list_elem_of_singleton in Hopen; discriminate].
  apply py_eq_str_true in Haccess.
  destruct (verification_result_dict _ _ Hres) as (response & -> & Hs & Hj).
  exists info, response, d. split_and!; assumption.
Qed.

(** X15.  A verification that failed is answered by a denial: when the
    call of an active request timed out, met a transport error or
    returned a status other than 200, every callback dispatch of the
    pass for that request carries arguments on which
    [verification_callback] calls [indicate_access_denied("Verification
    failed")] in place, and nothing else. *)
Theorem failed_verification_is_denied (m : AsyncRequestManager)
    (t : list event) (w : World) (request_id : string)
    (post : Exc Response) (result : Json) (error : option string)
    (does : Exc unit) :
  reachable m t →
  w request_id = Some post →
  call_failed post →
  ThreadStart request_id result error does
    ∈ (process_completed_requests w m).2 →
  verification_callback result error
  = [Called (IndicateDenied (JStr "Verification failed"))].
Proof.
  intros Hr Hw Hfailed Hin.
  destruct (pass_thread_start w m t _ _ _ _ Hr Hin)
    as (info & post' & _ & Hw' & -> & ->).
  rewrite Hw in Hw'. injection Hw' as <-.
  assert (verification_result post = JNone) as ->; [|reflexivity].
  destruct post as [r|e]; [|reflexivity]. simpl in *.
  apply Z.eqb_neq in Hfailed. rewrite Hfailed. reflexivity.
Qed.

(** X16.  An overload is answered by a denial in the submitter's own
    thread: the callback call that [submit_request] makes when it turns a
    request away carries arguments on which [verification_callback]
    calls [indicate_access_denied] in place with the reason "System
    error: Queue full - system overloaded", and does not open the
    door. *)
Theorem overload_is_denied (m : AsyncRequestManager) (uuid4_hex : string)
    (image_data : bytes) (f : Json → option string → Exc unit)
    (request_id : string) (result : Json) (error : option string)
    (does : Exc unit) :
  CallbackCall request_id result error does
    ∈ (submit_request uuid4_hex image_data (PyCallable f) m).2 →
  verification_callback result error
  = [Called (IndicateDenied
               (JStr "System error: Queue full - system overloaded"))].
Proof.
  intros Hin.
  destruct (Z.lt_ge_cases (len (active_requests m)) (max_concurrent m))
    as [Ha|Ha].
  { rewrite submit_request_start in Hin by exact Ha. cbn [snd] in Hin.
    exfalso. absent_from_trace Hin. }
  destruct (Z.lt_ge_cases (len (pending_requests m)) PENDING_REQUESTS_LIMIT)
    as [Hq|Hq].
  { rewrite submit_request_queue in Hin by assumption. cbn [snd] in Hin.
    exfalso. absent_from_trace Hin. }
  rewrite submit_request_reject in Hin by assumption. cbn [snd] in Hin.
  apply elem_of_cons in Hin as [Hin|Hin]; [discriminate|].
  apply elem_of_cons in Hin as [Hin|Hin]; [|exfalso; absent_from_trace Hin].
  injection Hin as _ -> -> _. reflexivity.
Qed.

(** * The capture loop and its statistics *)

Lemma admissible_filter (faces : list face) (f : face) :
  In f (List.filter admissible faces) ↔ In f faces ∧ admissible f = true.
Proof. apply filter_In. Qed.

(** X17.  [detect_faces] returns only faces whose width and height lie
    between [MIN_FACE_SIZE] and [MAX_FACE_SIZE], with their number for
    count; and [has_face] answers yes exactly when the image decodes,
    nothing raised, and the detector left at least one such face. *)
Theorem only_admissible_faces (look : Look) :
  (∀ x y w h, In (x, y, w, h) (detect_faces look).2 →
              50 ≤ w ≤ 400 ∧ 50 ≤ h ≤ 400)
  ∧ (detect_faces look).1 = len (detect_faces look).2
  ∧ (has_face look = true
     ↔ decodes look = true
       ∧ ∃ faces x y w h,
           found look = Some faces ∧ In (x, y, w, h) faces
           ∧ 50 ≤ w ≤ 400 ∧ 50 ≤ h ≤ 400).
Proof.
  assert (∀ x y w h, admissible (x, y, w, h) = true
                     ↔ 50 ≤ w ≤ 400 ∧ 50 ≤ h ≤ 400) as Hadm.
  { intros x y w h. unfold admissible, MIN_FACE_SIZE, MAX_FACE_SIZE. simpl.
    rewrite !andb_true_iff, !Z.leb_le. lia. }
  unfold has_face, detect_faces.
  destruct (decodes look); cbn [negb];
    [|split_and!; [intros ? ? ? ? []|reflexivity|]; split;
      [discriminate|intros [[=] _]]].
  destruct (found look) as [faces|];
    [|split_and!; [intros ? ? ? ? []|reflexivity|]; split;
      [discriminate|intros (_ & ? & ? & ? & ? & ? & [=] & _)]].
  cbn [fst snd]. split_and!.
  - intros x y w h [_ Hf]%admissible_filter. exact (proj1 (Hadm x y w h) Hf).
  - reflexivity.
  - rewrite Z.ltb_lt. split.
    + intros Hpos. split; [reflexivity|].
      destruct (List.filter admissible faces) as [|[[[x y] w] h] l] eqn:Hl;
        [unfold len in Hpos; simpl in Hpos; lia|].
      assert (In (x, y, w, h) (List.filter admissible faces)) as Hin
        by (rewrite Hl; left; reflexivity).
      apply admissible_filter in Hin as [Hin Hf].
      apply Hadm in Hf. exists faces, x, y, w, h.
      split_and!; [reflexivity|exact Hin|lia..].
    + intros (_ & faces' & x & y & w & h & [= <-] & Hin & Hw & Hh).
      assert (In (x, y, w, h) (List.filter admissible faces)) as Hin'.
      { apply admissible_filter. split; [exact Hin|].
        apply (Hadm x y w h). lia. }
      destruct (List.filter admissible faces); [destruct Hin'|].
      unfold len. simpl. lia.
Qed.

Lemma request_id_truth c uuid4_hex :
  String.eqb (make_request_id c uuid4_hex) "" = false.
Proof. reflexivity. Qed.

(** What the submission of a capture does, on a reachable manager. *)
Lemma submit_and_count_spec note_status uuid4_hex image_data s t :
  reachable (request_manager s) t →
  ∃ accepted : bool,
    submit_and_count note_status uuid4_hex image_data s
    = (with_stats (if accepted then bump_api_calls_made (stats s)
                   else stats s)
         (with_request_manager
            (step (Submit uuid4_hex image_data door_callback)
               (request_manager s)).1 s),
       (step (Submit uuid4_hex image_data door_callback)
          (request_manager s)).2)
    ∧ (length (active_requests
                 (step (Submit uuid4_hex image_data door_callback)
                    (request_manager s)).1)
       + length (pending_requests
                   (step (Submit uuid4_hex image_data door_callback)
                      (request_manager s)).1)
       = length (active_requests (request_manager s))
         + length (pending_requests (request_manager s))
         + (if accepted then 1 else 0))%nat
    ∧ popped (step (Submit uuid4_hex image_data door_callback)
                (request_manager s)).2 = [].
Proof.
  intros Hr. unfold submit_and_count. cbn [step].
  pose proof (reachable_fresh_id _ t uuid4_hex Hr) as Hfresh.
  assert (make_request_id (S (request_counter (request_manager s))) uuid4_hex
            ∉ keys (active_requests (request_manager s))) as Hkey
    by (intros Hin; apply Hfresh, elem_of_app; left; exact Hin).
  destruct (Z.lt_ge_cases (len (active_requests (request_manager s)))
              (max_concurrent (request_manager s))) as [Ha|Ha].
  { rewrite submit_request_start by exact Ha. exists true.
    cbn [fst snd id_truth]. rewrite request_id_truth. cbn [negb].
    rewrite dict_set_keys_fresh by exact Hkey.
    cbn [active_requests pending_requests with_active_requests
           with_request_counter].
    rewrite length_app. split_and!; [|simpl; lia|reflexivity].
    destruct note_status; reflexivity. }
  destruct (Z.lt_ge_cases (len (pending_requests (request_manager s)))
              PENDING_REQUESTS_LIMIT) as [Hq|Hq].
  { rewrite submit_request_queue by assumption. exists true.
    cbn [fst snd id_truth]. rewrite request_id_truth. cbn [negb].
    cbn [active_requests pending_requests with_pending_requests
           with_request_counter].
    rewrite length_app. split_and!; [|simpl; lia|reflexivity].
    destruct note_status; reflexivity. }
  rewrite submit_request_reject by assumption. exists false.
  cbn [door_callback fst snd id_truth active_requests pending_requests
         with_request_counter].
  split_and!; [reflexivity|lia|reflexivity].
Qed.

Lemma step_submit_counter uuid4_hex image_data callback m :
  request_counter (step (Submit uuid4_hex image_data callback) m).1
  = S (request_counter m).
Proof.
  cbn [step].
  destruct (Z.lt_ge_cases (len (active_requests m)) (max_concurrent m))
    as [Ha|Ha]; [rewrite submit_request_start by exact Ha; reflexivity|].
  destruct (Z.lt_ge_cases (len (pending_requests m)) PENDING_REQUESTS_LIMIT)
    as [Hq|Hq]; [rewrite submit_request_queue by assumption; reflexivity|].
  rewrite submit_request_reject by assumption.
  destruct callback; reflexivity.
Qed.

Lemma partition_length w m :
  (length (finished w m) + length (running w m)
   = length (active_requests m))%nat.
Proof.
  pose proof (keys_partition w m) as Hperm.
  apply Permutation_length in Hperm. unfold keys in Hperm.
  rewrite length_app, !length_fmap in Hperm. exact Hperm.
Qed.

Ltac stats_simpl :=
  cbn [total_captures faces_detected api_calls_made api_calls_saved
         frames_streamed bump_total_captures bump_faces_detected
         bump_api_calls_made bump_api_calls_saved bump_frames_streamed].

Lemma door_step_inv o s t :
  stats_inv s t → stats_inv (door_step o s).1 (t ++ (door_step o s).2).
Proof.
  intros (Hr & Hfd & Hmade & Hfaces & Hle & Hsaved & Hstream).
  unfold stats_inv.
  destruct o as [shot look uuid4_hex|w]; cbn [door_step].
  - unfold capture_and_verify_async, capture_image.
    destruct shot as [|data streamed].
    { cbn [fst snd]. rewrite app_nil_r. split_and!; assumption. }
    set (st := if streamed
               then bump_frames_streamed (bump_total_captures (stats s))
               else bump_total_captures (stats s)).
    assert (faces_detected st = faces_detected (stats s)
            ∧ api_calls_made st = api_calls_made (stats s)
            ∧ api_calls_saved st = api_calls_saved (stats s)
            ∧ total_captures st = S (total_captures (stats s))
            ∧ (frames_streamed st ≤ S (frames_streamed (stats s)))%nat)
      as (Hst1 & Hst2 & Hst3 & Hst4 & Hst5).
    { subst st. destruct streamed; simpl; split_and!; lia. }
    clearbody st.
    destruct data as [|byte data].
    { cbn [fst snd stats with_stats request_manager face_detector].
      rewrite app_nil_r, Hst1, Hst2, Hst3, Hst4.
      split_and!; try assumption; lia. }
    cbn [face_detector with_stats]. rewrite Hfd.
    unfold FACE_DETECTION_ENABLED. cbn [andb].
    destruct (has_face look).
    + destruct (submit_and_count_spec true uuid4_hex (byte :: data)
                  (with_stats (bump_faces_detected (stats (with_stats st s)))
                     (with_stats st s)) t Hr)
        as (accepted & -> & Hlen & Hpop).
      cbn [fst snd stats with_stats with_request_manager request_manager
             face_detector] in *.
      rewrite popped_app, Hpop, app_nil_r.
      split_and!.
      * apply (reachable_step (Submit uuid4_hex (byte :: data) door_callback)),
          Hr.
      * exact Hfd.
      * destruct accepted; stats_simpl; lia.
      * rewrite step_submit_counter.
        destruct accepted; stats_simpl; lia.
      * destruct accepted; stats_simpl; lia.
      * destruct accepted; stats_simpl; lia.
      * destruct accepted; stats_simpl; lia.
    + cbn [fst snd stats with_stats request_manager face_detector].
      rewrite app_nil_r. stats_simpl.
      split_and!; try assumption; lia.
  - unfold request_processor_turn.
    pose proof (reachable_step (Process w) _ t Hr) as Hr'.
    destruct (reachable_pass w _ t Hr)
      as (taken & rest & Hsplit & Hpass & _ & _).
    cbn [step] in Hr'. rewrite Hpass in *.
    cbn [fst snd stats with_request_manager request_manager face_detector
           active_requests pending_requests request_counter
           with_active_requests with_pending_requests] in *.
    rewrite popped_app, popped_locked, popped_app, popped_harvest,
      popped_promote, app_nil_r.
    split_and!; try assumption.
    pose proof (partition_length w (request_manager s)) as Hpart.
    rewrite Hsplit in Hmade.
    unfold keys. rewrite !length_app, !length_fmap in *. lia.
Qed.

Lemma door_run_inv ops :
  ∀ s t, stats_inv s t → stats_inv (door_run ops s t).1 (door_run ops s t).2.
Proof.
  induction ops as [|o ops IH]; intros s t Hinv; [exact Hinv|].
  cbn [door_run]. pose proof (door_step_inv o s t Hinv) as Hstep.
  destruct (door_step o s) as [s' t']. apply IH, Hstep.
Qed.

Lemma new_system_inv s0 : new_system = Returns s0 → stats_inv s0 [].
Proof.
  unfold new_system, default_manager.
  destruct (__init__ MAX_CONCURRENT_REQUESTS) as [m|e] eqn:Hinit;
    [|discriminate].
  intros [= <-]. cbn [request_manager face_detector stats].
  split.
  - exists MAX_CONCURRENT_REQUESTS, m, []. split; [exact Hinit|reflexivity].
  - apply init_returns in Hinit as [_ ->]. simpl. split_and!; try done.
Qed.

(** X18.  The statistics agree with the ledger: after any sequence of
    captures and processor turns on a new system, [api_calls_made] is the
    number of requests active, queued or already harvested;
    [faces_detected] is the request counter of the manager, so every
    detected face led to one [submit_request]; and [api_calls_made <=
    faces_detected], [faces_detected + api_calls_saved <=
    total_captures], [frames_streamed <= total_captures]. *)
Theorem statistics_match_ledger (s0 : DoorControlSystem)
    (ops : list door_op) :
  new_system = Returns s0 →
  let s := (door_run ops s0 []).1 in
  let t := (door_run ops s0 []).2 in
  api_calls_made (stats s)
  = (length (active_requests (request_manager s))
     + length (pending_requests (request_manager s))
     + length (popped t))%nat
  ∧ faces_detected (stats s) = request_counter (request_manager s)
  ∧ (api_calls_made (stats s) ≤ faces_detected (stats s))%nat
  ∧ (faces_detected (stats s) + api_calls_saved (stats s)
     ≤ total_captures (stats s))%nat
  ∧ (frames_streamed (stats s) ≤ total_captures (stats s))%nat.
Proof.
  intros Hnew. cbv zeta.
  destruct (door_run_inv ops s0 [] (new_system_inv s0 Hnew))
    as (_ & _ & H1 & H2 & H3 & H4 & H5).
  split_and!; assumption.
Qed.

(** X19.  With face detection on, a capture reaches the manager only for
    an image with a face: if [capture_and_verify_async] leaves any event
    of the manager or moves its request counter, then the camera gave a
    non-empty image, the image decoded, and the detector found a face of
    admissible size in it. *)
Theorem submission_needs_a_face (s : DoorControlSystem) (shot : camera)
    (look : Look) (uuid4_hex : string) :
  face_detector s = true →
  (capture_and_verify_async shot look uuid4_hex s).2 ≠ []
  ∨ request_counter
      (request_manager (capture_and_verify_async shot look uuid4_hex s).1)
    ≠ request_counter (request_manager s) →
  ∃ optimized_data streamed,
    shot = Image optimized_data streamed
    ∧ optimized_data ≠ []
    ∧ has_face look = true.
Proof.
  intros Hfd Hmoved. unfold capture_and_verify_async, capture_image in Hmoved.
  destruct shot as [|data streamed];
    [destruct Hmoved as [H|H]; destruct H; reflexivity|].
  destruct data as [|byte data];
    [destruct Hmoved as [H|H]; destruct H; reflexivity|].
  cbn [face_detector with_stats] in Hmoved. rewrite Hfd in Hmoved.
  unfold FACE_DETECTION_ENABLED in Hmoved. cbn [andb] in Hmoved.
  destruct (has_face look);
    [|destruct Hmoved as [H|H]; destruct H; reflexivity].
  exists (byte :: data), streamed. split_and!; [reflexivity|discriminate|reflexivity].
Qed.

(** * The speech queue *)

(** X20.  When calls of [speak] do not overlap, the speech queue never
    holds more than six messages and never an empty one: this holds after
    any sequence of [speak] calls and of messages taken by the speech
    thread, starting from the empty queue.  A call with a non-empty
    message always leaves that message last in the queue, and alone in
    it when more than five messages were waiting: those are dropped. *)
Theorem speech_queue_bounded (ops : list speech_op) :
  len (speech_run ops []) ≤ 6
  ∧ ¬ ("" ∈ speech_run ops [])
  ∧ (∀ message message_queue,
       message ≠ "" →
       last (speak message message_queue) = Some message
       ∧ (5 < len message_queue → speak message message_queue = [message])).
Proof.
  split_and!.
  - enough (∀ q, len q ≤ 6 → len (speech_run ops q) ≤ 6) as H
      by (apply H; unfold len; simpl; lia).
    induction ops as [|o ops IH]; intros q Hq; [exact Hq|].
    apply IH. destruct o as [message|]; simpl.
    + unfold speak. destruct (String.eqb message ""); [exact Hq|].
      destruct (Z.ltb_spec 5 (len q)); unfold len in *;
        rewrite length_app; simpl; lia.
    + destruct q; unfold len in *; simpl in *; lia.
  - enough (∀ q, ¬ ("" ∈ q) → ¬ ("" ∈ speech_run ops q)) as H
      by (apply H; intros []%elem_of_nil).
    induction ops as [|o ops IH]; intros q Hq; [exact Hq|].
    apply IH. destruct o as [message|]; simpl.
    + unfold speak. destruct (String.eqb_spec message "") as [->|Hne];
        [exact Hq|].
      intros [Hin|Hin%list_elem_of_singleton]%elem_of_app; [|congruence].
      destruct (5 <? len q); [apply elem_of_nil in Hin; exact Hin|].
      exact (Hq Hin).
    + destruct q as [|x q]; [exact Hq|].
      intros Hin. apply Hq, list_elem_of_further, Hin.
  - intros message q Hne. unfold speak.
    destruct (String.eqb_spec message ""); [congruence|]. split.
    + apply last_snoc.
    + intros Hfull%Z.ltb_lt. rewrite Hfull. reflexivity.
Qed.

(** * More examples *)

Lemma queue_only_when_full_witness :
  len (active_requests saturated) = max_concurrent saturated.
Proof.
  apply (queue_only_when_full saturated saturated_trace).
  - exists 1, (fresh 1), (firstn 6 (seven_submissions PyNone)).
    split; reflexivity.
  - discriminate.
Defined.

Lemma idle_pass_changes_nothing_witness :
  process_completed_requests no_worker_done saturated
  = (Ok tt, saturated, [LockAcquire; LockRelease]).
Proof.
  apply (idle_pass_changes_nothing saturated saturated_trace no_worker_done).
  - exists 1, (fresh 1), (firstn 6 (seven_submissions PyNone)).
    split; reflexivity.
  - intros item _ Hdone. exact Hdone.
Defined.

Lemma callbacks_fire_once_witness :
  NoDup (fired (run two_passes (fresh 1) []).2).
Proof.
  apply (callbacks_fire_once (run two_passes (fresh 1) []).1).
  exists 1, (fresh 1), two_passes. split; reflexivity.
Defined.

Lemma verification_dispatched_once_witness :
  submitted (run two_passes (fresh 1) []).2
  = inserted (run two_passes (fresh 1) []).2
  ∧ NoDup (submitted (run two_passes (fresh 1) []).2).
Proof.
  apply (verification_dispatched_once (run two_passes (fresh 1) []).1).
  exists 1, (fresh 1), two_passes. split; reflexivity.
Defined.

Lemma no_request_lost_witness :
  inserted (run two_passes (fresh 1) []).2
  ≡ₚ active_ids (run two_passes (fresh 1) []).1
       ++ popped (run two_passes (fresh 1) []).2
  ∧ appended (run two_passes (fresh 1) []).2
    = promoted (run two_passes (fresh 1) []).2
        ++ pending_ids (run two_passes (fresh 1) []).1.
Proof.
  apply no_request_lost.
  exists 1, (fresh 1), two_passes. split; reflexivity.
Defined.

Lemma returned_id_is_new_witness :
  ¬ ("req_8_7b7b7b7b" ∈ inserted (run two_passes (fresh 1) []).2).
Proof.
  apply (returned_id_is_new (run two_passes (fresh 1) []).1
           (run two_passes (fresh 1) []).2 "7b7b7b7b" [] cb_returns
           "req_8_7b7b7b7b").
  - exists 1, (fresh 1), two_passes. split; reflexivity.
  - reflexivity.
Defined.

Lemma counter_counts_submissions_witness :
  request_counter (run two_passes (fresh 1) []).1 = count_submits two_passes.
Proof.
  apply (counter_counts_submissions 1 (fresh 1) two_passes). reflexivity.
Defined.

Lemma get_status_snapshot_witness :
  ∃ active pending,
    get_status saturated
    = (Ok (active, pending, max_concurrent saturated), saturated,
       [LockAcquire; LockRelease])
    ∧ active = len (active_requests saturated)
    ∧ pending = len (pending_requests saturated)
    ∧ 0 ≤ active ≤ max_concurrent saturated
    ∧ 0 ≤ pending ≤ PENDING_REQUESTS_LIMIT
    ∧ (0 < pending → active = max_concurrent saturated).
Proof.
  apply (get_status_snapshot saturated saturated_trace).
  exists 1, (fresh 1), (firstn 6 (seven_submissions PyNone)).
  split; reflexivity.
Defined.

Lemma submit_adds_one_or_none_witness :
  pending_requests
    (submit_request "7b7b7b7b" [Byte.x01] cb_returns
       (run (firstn 3 (seven_submissions PyNone)) (fresh 1) []).1).1.2
  = pending_requests (run (firstn 3 (seven_submissions PyNone)) (fresh 1) []).1
      ++ [{| Queued.id := "req_4_7b7b7b7b";
             Queued.image_data := [Byte.x01];
             Queued.callback := cb_returns |}].
Proof.
  destruct (submit_adds_one_or_none
              (run (firstn 3 (seven_submissions PyNone)) (fresh 1) []).1
              (run (firstn 3 (seven_submissions PyNone)) (fresh 1) []).2
              "7b7b7b7b" [Byte.x01] cb_returns)
    as (_ & _ & Hsome & _).
  - exists 1, (fresh 1), (firstn 3 (seven_submissions PyNone)).
    split; reflexivity.
  - destruct (Hsome "req_4_7b7b7b7b" eq_refl)
      as [(Hfree & _)|(_ & _ & _ & Hqueue)].
    + vm_compute in Hfree. discriminate Hfree.
    + exact Hqueue.
Defined.

Lemma pass_fills_free_slots_witness :
  ∃ m' t',
    process_completed_requests (only_done "req_1_0a0a0a0a" timed_out)
      saturated = (Ok tt, m', t')
    ∧ promoted t' = ["req_2_1b1b1b1b"].
Proof.
  destruct (pass_fills_free_slots saturated saturated_trace
              (only_done "req_1_0a0a0a0a" timed_out))
    as (m' & t' & Hpass & _ & _ & Hpromoted & _).
  - exists 1, (fresh 1), (firstn 6 (seven_submissions PyNone)).
    split; reflexivity.
  - exists m', t'. split; [exact Hpass|]. rewrite Hpromoted. reflexivity.
Defined.

Lemma future_of_its_key_witness :
  task_request_id
    {| task_image_data := []; task_request_id := "req_1_0a0a0a0a" |}
  = "req_1_0a0a0a0a".
Proof.
  apply (future_of_its_key saturated saturated_trace "req_1_0a0a0a0a"
           {| Active.future := {| task_image_data := [];
                                  task_request_id := "req_1_0a0a0a0a" |};
              Active.callback := cb_raises |}).
  - exists 1, (fresh 1), (firstn 6 (seven_submissions PyNone)).
    split; reflexivity.
  - vm_compute. apply list_elem_of_here.
Defined.

Lemma verified_result_delivered_witness :
  dispatches "req_1_0a0a0a0a"
    (process_completed_requests (only_done "req_1_0a0a0a0a" verified)
       saturated).2
  = [(JDict [("openDoor", JBool true)], None,
      Raises (Exn RuntimeError "callback failed"))].
Proof.
  apply (verified_result_delivered saturated saturated_trace
           (only_done "req_1_0a0a0a0a" verified) "req_1_0a0a0a0a"
           {| Active.future := {| task_image_data := [];
                                  task_request_id := "req_1_0a0a0a0a" |};
              Active.callback := cb_raises |}
           {| status_code := 200;
              json := Returns (JDict [("openDoor", JBool true)]) |}
           (JDict [("openDoor", JBool true)])
           (λ _ _, Raises (Exn RuntimeError "callback failed"))).
  - exists 1, (fresh 1), (firstn 6 (seven_submissions PyNone)).
    split; reflexivity.
  - vm_compute. apply list_elem_of_here.
  - reflexivity.
  - reflexivity.
  - reflexivity.
  - reflexivity.
Defined.

Lemma door_opens_only_after_granting_response_witness :
  ∃ request_info response d,
    ("req_1_0a0a0a0a", request_info) ∈ active_requests saturated
    ∧ only_done "req_1_0a0a0a0a" granting "req_1_0a0a0a0a"
      = Some (Returns response)
    ∧ status_code response = 200
    ∧ json response = Returns (JDict d)
    ∧ py_truth (dict_get "openDoor" (JBool false) d) = true
    ∧ dict_get "access" (JStr "denied") d = JStr "granted".
Proof.
  apply (door_opens_only_after_granting_response saturated saturated_trace
           (only_done "req_1_0a0a0a0a" granting) "req_1_0a0a0a0a"
           (JDict [("openDoor", JBool true); ("access", JStr "granted");
                   ("user", JStr "Ada")])
           None (Raises (Exn RuntimeError "callback failed"))).
  - exists 1, (fresh 1), (firstn 6 (seven_submissions PyNone)).
    split; reflexivity.
  - vm_compute. do 2 apply list_elem_of_further. apply list_elem_of_here.
  - vm_compute. apply list_elem_of_here.
Defined.

Lemma failed_verification_is_denied_witness :
  verification_callback JNone None
  = [Called (IndicateDenied (JStr "Verification failed"))].
Proof.
  apply (failed_verification_is_denied saturated saturated_trace
           (only_done "req_1_0a0a0a0a" timed_out) "req_1_0a0a0a0a"
           timed_out JNone None
           (Raises (Exn RuntimeError "callback failed"))).
  - exists 1, (fresh 1), (firstn 6 (seven_submissions PyNone)).
    split; reflexivity.
  - reflexivity.
  - exact I.
  - vm_compute. do 2 apply list_elem_of_further. apply list_elem_of_here.
Defined.

Lemma overload_is_denied_witness :
  verification_callback JNone (Some "Queue full - system overloaded")
  = [Called (IndicateDenied
               (JStr "System error: Queue full - system overloaded"))].
Proof.
  apply (overload_is_denied saturated "6a6a6a6a" [] (λ _ _, Returns tt)
           "req_7_6a6a6a6a" JNone (Some "Queue full - system overloaded")
           (Returns tt)).
  vm_compute. apply list_elem_of_further, list_elem_of_here.
Defined.

Lemma statistics_match_ledger_witness :
  api_calls_made
    (stats (door_run four_captures
              {| face_detector := true;
                 stats := {| total_captures := 0; faces_detected := 0;
                             api_calls_made := 0; api_calls_saved := 0;
                             frames_streamed := 0 |};
                 request_manager := fresh 3 |} []).1)
  = 2%nat.
Proof.
  destruct (statistics_match_ledger
              {| face_detector := true;
                 stats := {| total_captures := 0; faces_detected := 0;
                             api_calls_made := 0; api_calls_saved := 0;
                             frames_streamed := 0 |};
                 request_manager := fresh 3 |} four_captures eq_refl)
    as (Hmade & _).
  rewrite Hmade. reflexivity.
Defined.

Lemma submission_needs_a_face_witness :
  ∃ optimized_data streamed,
    Image [Byte.x01] false = Image optimized_data streamed
    ∧ optimized_data ≠ []
    ∧ has_face one_face = true.
Proof.
  apply (submission_needs_a_face
           {| face_detector := true;
              stats := {| total_captures := 0; faces_detected := 0;
                          api_calls_made := 0; api_calls_saved := 0;
                          frames_streamed := 0 |};
              request_manager := fresh 3 |}
           (Image [Byte.x01] false) one_face "0a0a0a0a").
  - reflexivity.
  - left. discriminate.
Defined.
